(** * GHZ generation from two Bell-diagonal states (example/qutip_integration.py)

    A shallow embedding of [bell_dm], [noisy_meas], [merge] and
    [gate_teleport] together with the operator algebra they import.

    Conventions of the embedding.
    - Python numbers are idealised as exact numbers of the field Q(sqrt 2):
      every constant of the program (0, 1, 4, 1/sqrt 2) lives there, and
      rounding is not modelled.
    - All operators of the program are real, so the adjoint [dag] is the
      transpose.
    - A Python exception is a value [Err e]; a statement that raises stops
      the function, as the [result] monad does.
    - Line numbers are those of example/qutip_integration.py. *)

From Stdlib Require Import ZArith QArith Qcanon List String Bool Lia Ring.
From Stdlib Require Ascii DecimalString DecimalZ DecimalPos.
Import ListNotations.
Local Open Scope Z_scope.

(** ** Exact scalars: a + b * sqrt 2 with a, b canonical rationals *)

Record K : Type := mkK { rat : Qc; irr : Qc }.

Declare Scope K_scope.
Delimit Scope K_scope with K.
Bind Scope K_scope with K.

Definition k0 : K := mkK 0%Qc 0%Qc.
Definition k1 : K := mkK 1%Qc 0%Qc.
Definition ksqrt2 : K := mkK 0%Qc 1%Qc.

Definition kadd (x y : K) : K :=
  mkK (rat x + rat y)%Qc (irr x + irr y)%Qc.
Definition kopp (x : K) : K := mkK (- rat x)%Qc (- irr x)%Qc.
Definition ksub (x y : K) : K :=
  mkK (rat x - rat y)%Qc (irr x - irr y)%Qc.
Definition kmul (x y : K) : K :=
  mkK (rat x * rat y + Q2Qc 2 * (irr x * irr y))%Qc
      (rat x * irr y + irr x * rat y)%Qc.

(** 1 / (a + b sqrt 2) = (a - b sqrt 2) / (a^2 - 2 b^2). *)
Definition knorm (x : K) : Qc := (rat x * rat x - Q2Qc 2 * (irr x * irr x))%Qc.
Definition kinv (x : K) : K :=
  mkK (rat x / knorm x)%Qc (- irr x / knorm x)%Qc.
Definition kdiv (x y : K) : K := kmul x (kinv y).

Definition K_of_Q (q : Q) : K := mkK (Q2Qc q) 0%Qc.
Definition K_of_Z (z : Z) : K := K_of_Q (inject_Z z).

Infix "+" := kadd : K_scope.
Infix "-" := ksub : K_scope.
Infix "*" := kmul : K_scope.
Infix "/" := kdiv : K_scope.
Notation "- x" := (kopp x) : K_scope.
Notation "0" := k0 : K_scope.
Notation "1" := k1 : K_scope.

(** Python's [x ** 2]. *)
Definition ksquare (x : K) : K := (x * x)%K.

Definition keqb (x y : K) : bool :=
  Qeq_bool (rat x) (rat y) && Qeq_bool (irr x) (irr y).

(** Order on Q(sqrt 2), needed to compare a uniform draw with a cumulative
    probability.  [kneg x] decides [x < 0]. *)
Definition qc_ltb (a b : Qc) : bool :=
  match (a ?= b)%Qc with Lt => true | _ => false end.

Definition kneg (x : K) : bool :=
  let a := rat x in
  let b := irr x in
  let a2 := (a * a)%Qc in
  let b2 := (Q2Qc 2 * (b * b))%Qc in
  match (a ?= 0)%Qc, (b ?= 0)%Qc with
  | Lt, Lt | Lt, Eq | Eq, Lt => true
  | Gt, Lt => qc_ltb a2 b2
  | Lt, Gt => qc_ltb b2 a2
  | _, _ => false
  end.

Definition kltb (x y : K) : bool := kneg (x - y)%K.

(** ** Python values, exceptions and the call protocol *)

(** The error kinds of the specification (spec section 7), extended with the
    two [ValueError]s the embedding needs: unpacking a list of the wrong
    length, and a Bell label the library has no state for. *)
Inductive ValueErrorKind : Type :=
| UnnormalizedState
| NonHermitianOperator
| ParameterOutOfRange
| DimensionMismatch
| InvalidIndexSet
| UnpackMismatch
| UnknownBellLabel.

Inductive exn : Type :=
| TypeError (msg : string)
| UnboundLocalError (var : string)
| ValueError (kind : ValueErrorKind).

Inductive result (A : Type) : Type :=
| Ok (a : A)
| Err (e : exn).
Arguments Ok {A} a.
Arguments Err {A} e.

Definition rbind {A B : Type} (c : result A) (k : A -> result B) : result B :=
  match c with
  | Ok a => k a
  | Err e => Err e
  end.

Declare Scope py_scope.
Delimit Scope py_scope with py.
Notation "x <- c ;; k" := (rbind c (fun x => k))
  (at level 61, c at next level, right associativity) : py_scope.
Notation "c ;;; k" := (rbind c (fun _ => k))
  (at level 61, right associativity) : py_scope.
Local Open Scope py_scope.

(** Python binds the positional arguments of a call to the parameters of the
    [def] before it runs the body.  A call site fills each parameter slot
    ([Some v]) or leaves it empty ([None]); an empty slot of a parameter
    without default raises [TypeError] and the body never runs. *)
Definition missing_argument (fname param : string) : exn :=
  TypeError (fname ++ "() missing 1 required positional argument: '"
                   ++ param ++ "'").

Definition py_call2 {A B R : Type} (fname p1 p2 : string)
    (body : A -> B -> result R) (a : option A) (b : option B) : result R :=
  match a, b with
  | Some x, Some y => body x y
  | None, _ => Err (missing_argument fname p1)
  | Some _, None => Err (missing_argument fname p2)
  end.

(** [format(idx, 'b')]: the binary digits of an integer, without padding,
    with a leading minus sign for a negative one. *)
Fixpoint pos_bin (p : positive) : string :=
  match p with
  | xH => "1"
  | xO q => pos_bin q ++ "0"
  | xI q => pos_bin q ++ "1"
  end.

Definition format_b (z : Z) : string :=
  match z with
  | Z0 => "0"
  | Zpos p => pos_bin p
  | Zneg p => "-" ++ pos_bin p
  end.

(** Python's [zip]: stops at the end of the shorter sequence. *)
Fixpoint zip {A B : Type} (l : list A) (m : list B) : list (A * B) :=
  match l, m with
  | a :: l', b :: m' => (a, b) :: zip l' m'
  | _, _ => []
  end.

(** ** The operator algebra the program imports *)

Module Qutip.

(** Modelled from the spec: the operator algebra layer (spec sections 3 and
    4.1), which the source imports from QuTiP and qutip_qip and which is not
    part of the repository.  An operator on n qubits is a 2^n x 2^n matrix,
    stored as its list of rows; a ket is a matrix with one column.  [tensor]
    is the Kronecker product in left-to-right qubit order, [ptrace] keeps the
    listed qubits and sums over the others, and an operation on operands of
    incompatible dimensions raises instead of returning a matrix.  The gates
    are the standard ones, and the Bell states are labelled as the docstring
    of [bell_dm] lists them. *)
Definition Qobj : Type := list (list K).

Definition nrows (A : Qobj) : nat := List.length A.
Definition ncols (A : Qobj) : nat := List.length (hd [] A).

Definition entry (A : Qobj) (i j : nat) : K := nth j (nth i A []) k0.

Definition same_shape (A B : Qobj) : bool :=
  ((nrows A =? nrows B) && (ncols A =? ncols B))%nat.

(** [basis(N, n)]: the n-th computational ket of dimension N. *)
Definition basis (N n : nat) : Qobj :=
  map (fun i => [if (i =? n)%nat then k1 else k0]) (seq 0 N).

(** [identity(N)]. *)
Definition identity (N : nat) : Qobj :=
  map (fun i => map (fun j => if (i =? j)%nat then k1 else k0) (seq 0 N))
      (seq 0 N).

Definition sigmax : Qobj := [[k0; k1]; [k1; k0]].
Definition sigmaz : Qobj := [[k1; k0]; [k0; kopp k1]].

(** [qutip_qip.operations.cnot()] and [swap()] with their default
    arguments: two qubits, control 0 and target 1. *)
Definition cnot : Qobj :=
  [[k1; k0; k0; k0]; [k0; k1; k0; k0]; [k0; k0; k0; k1]; [k0; k0; k1; k0]].
Definition swap : Qobj :=
  [[k1; k0; k0; k0]; [k0; k0; k1; k0]; [k0; k1; k0; k0]; [k0; k0; k0; k1]].

(** Scalar product and quotient, [c * A] and [A / c]. *)
Definition smul (c : K) (A : Qobj) : Qobj := map (map (kmul c)) A.
Definition sdiv (A : Qobj) (c : K) : Qobj := map (map (fun x => kdiv x c)) A.

(** [hadamard_transform()] on one qubit. *)
Definition hadamard_transform : Qobj :=
  sdiv [[k1; k1]; [k1; kopp k1]] ksqrt2.

(** [A.dag()]: the transpose (all operators are real). *)
Definition column (A : Qobj) (j : nat) : list K :=
  map (fun r => nth j r k0) A.
Definition dag (A : Qobj) : Qobj :=
  map (column A) (seq 0 (ncols A)).

Definition dot (r c : list K) : K :=
  fold_left kadd (map (fun p => kmul (fst p) (snd p)) (combine r c)) k0.

Definition mmul (A B : Qobj) : Qobj :=
  map (fun r => map (fun j => dot r (column B j)) (seq 0 (ncols B))) A.

Definition madd (A B : Qobj) : Qobj :=
  map (fun p => map (fun q => kadd (fst q) (snd q)) (combine (fst p) (snd p)))
      (combine A B).

(** [A * B] and [A + B] between operators. *)
Definition qmul (A B : Qobj) : result Qobj :=
  if (ncols A =? nrows B)%nat then Ok (mmul A B)
  else Err (ValueError DimensionMismatch).

Definition qadd (A B : Qobj) : result Qobj :=
  if same_shape A B then Ok (madd A B)
  else Err (ValueError DimensionMismatch).

(** [tensor(A, B, ...)]. *)
Definition kron (A B : Qobj) : Qobj :=
  flat_map (fun ra => map (fun rb => flat_map (fun a => map (kmul a) rb) ra) B) A.

Definition tensor (ops : list Qobj) : Qobj := fold_left kron ops [[k1]].

Definition tr (A : Qobj) : K :=
  fold_left kadd (map (fun i => entry A i i) (seq 0 (nrows A))) k0.

(** Qubit indices.  Row i of an n-qubit operator is addressed by the n bits
    of i, qubit 0 being the most significant one. *)
Fixpoint all_bits (n : nat) : list (list bool) :=
  match n with
  | O => [[]]
  | S m => (map (cons false) (all_bits m) ++ map (cons true) (all_bits m))%list
  end.

Definition bits_index (bs : list bool) : nat :=
  fold_left (fun acc (b : bool) => (2 * acc + (if b then 1 else 0))%nat) bs O.

(** [weave q sel kept env]: the bits of a full index, from the bits of the
    kept qubits and those of the traced ones; [q] is the position of the
    first bit still to produce. *)
Fixpoint weave (n q : nat) (sel : list nat) (kept env : list bool) : list bool :=
  match n with
  | O => []
  | S m =>
      if existsb (Nat.eqb q) sel then
        hd false kept :: weave m (S q) sel (tl kept) env
      else
        hd false env :: weave m (S q) sel kept (tl env)
  end.

Fixpoint qubits_of (fuel dim : nat) : option nat :=
  match fuel with
  | O => None
  | S f =>
      if (dim =? 1)%nat then Some O
      else if Nat.even dim then option_map S (qubits_of f (Nat.div2 dim))
      else None
  end.

Fixpoint has_dup (l : list nat) : bool :=
  match l with
  | [] => false
  | a :: t => existsb (Nat.eqb a) t || has_dup t
  end.

(** [A.ptrace(sel)]: keep the qubits of [sel], renumbered in increasing
    order.  An index outside the operator's qubits, or a repeated one, is an
    invalid index set; an operand that is not a square operator on qubits is
    a dimension mismatch. *)
Definition ptrace (A : Qobj) (sel : list nat) : result Qobj :=
  match qubits_of (S (nrows A)) (nrows A) with
  | None => Err (ValueError DimensionMismatch)
  | Some n =>
      if negb (nrows A =? ncols A)%nat then Err (ValueError DimensionMismatch)
      else if negb (forallb (fun q => q <? n)%nat sel) || has_dup sel
      then Err (ValueError InvalidIndexSet)
      else
        let k := List.length sel in
        let at_ kept env := bits_index (weave n O sel kept env) in
        Ok (map (fun ki =>
              map (fun kj =>
                fold_left kadd
                  (map (fun e => entry A (at_ ki e) (at_ kj e))
                       (all_bits (n - k)))
                  k0)
                (all_bits k))
              (all_bits k))
  end.

(** [bell_state(label)]: the four Bell kets, labelled by two bits. Any other
    label has no state. *)
Definition ket2 (a b : nat) : Qobj := tensor [basis 2 a; basis 2 b].

Definition bell_state (label : string) : result Qobj :=
  let unit v := sdiv v ksqrt2 in
  if String.eqb label "00" then Ok (unit (madd (ket2 0 0) (ket2 1 1)))
  else if String.eqb label "01" then
    Ok (unit (madd (ket2 0 0) (smul (kopp k1) (ket2 1 1))))
  else if String.eqb label "10" then Ok (unit (madd (ket2 0 1) (ket2 1 0)))
  else if String.eqb label "11" then
    Ok (unit (madd (ket2 0 1) (smul (kopp k1) (ket2 1 0))))
  else Err (ValueError UnknownBellLabel).

(** Boolean comparison of operators, entry by entry. *)
Fixpoint list_eqb {A : Type} (eqb : A -> A -> bool) (l m : list A) : bool :=
  match l, m with
  | [], [] => true
  | a :: l', b :: m' => eqb a b && list_eqb eqb l' m'
  | _, _ => false
  end.

Definition meqb (A B : Qobj) : bool := list_eqb (list_eqb keqb) A B.

End Qutip.

Import Qutip.

(** ** bell_dm and noisy_meas *)

(** What the accumulator of [bell_dm] can hold: the Python integer 0 it is
    initialised with, or an operator. *)
Inductive pyobj : Type :=
| PyZero
| PyQobj (A : Qobj).

(** [acc += A].  The integer 0 plus an operator is the operator. *)
Definition py_iadd (acc : pyobj) (A : Qobj) : result pyobj :=
  match acc with
  | PyZero => Ok (PyQobj A)
  | PyQobj B => S <- qadd B A ;; Ok (PyQobj S)
  end.

(** An operand that must be an operator: the library rejects a plain
    number. *)
Definition as_qobj (v : pyobj) : result Qobj :=
  match v with
  | PyQobj A => Ok A
  | PyZero => Err (TypeError "One of inputs is not a quantum object")
  end.

(** The loop of [bell_dm] (lines 29-32), over the pairs of [zip]. *)
Fixpoint bell_dm_loop (bell_dm : pyobj) (pairs : list (K * Z)) : result pyobj :=
  match pairs with
  | [] => Ok bell_dm
  | (elem, idx) :: rest =>
      let idx_str := format_b idx in
      ket <- bell_state idx_str ;;
      ket' <- bell_state idx_str ;;
      pure_bell_dm <- qmul ket (dag ket') ;;
      bell_dm' <- py_iadd bell_dm (smul elem pure_bell_dm) ;;
      bell_dm_loop bell_dm' rest
  end.

Definition bell_dm (state : list K) (elem_order : list Z) : result pyobj :=
  bell_dm_loop PyZero (zip state elem_order).

(** [noisy_meas] (lines 49-52).  [fid * basis(2,0) * basis(2,0).dag()] is
    read from the left: the ket is scaled first. *)
Definition noisy_meas (fid : K) : result (list Qobj) :=
  a0 <- qmul (smul fid (basis 2 0)) (dag (basis 2 0)) ;;
  b0 <- qmul (smul (1 - fid)%K (basis 2 1)) (dag (basis 2 1)) ;;
  povm_0 <- qadd a0 b0 ;;
  a1 <- qmul (smul fid (basis 2 1)) (dag (basis 2 1)) ;;
  b1 <- qmul (smul (1 - fid)%K (basis 2 0)) (dag (basis 2 0)) ;;
  povm_1 <- qadd a1 b1 ;;
  Ok [povm_0; povm_1].

(** [povm0, povm1 = noisy_meas(meas_fid)]. *)
Definition unpack2 (l : list Qobj) : result (Qobj * Qobj) :=
  match l with
  | [a; b] => Ok (a, b)
  | _ => Err (ValueError UnpackMismatch)
  end.

(** [U * rho * U.dag()], read from the left. *)
Definition conj_by (U rho : Qobj) : result Qobj :=
  t <- qmul U rho ;; qmul t (dag U).

(** ** merge: the steps that involve no measurement *)

(** Lines 74-81: the initial state and the noisy CNOT between qubits 1 and
    2. *)
Definition merge_post_cnot (bell_dm_1 bell_dm_2 : pyobj) (cnot_fid : K)
  : result Qobj :=
  b1 <- as_qobj bell_dm_1 ;;
  b2 <- as_qobj bell_dm_2 ;;
  let init_state := tensor [b1; b2] in
  let cnot_12 := tensor [identity 2; cnot; identity 2] in
  let swap_12 := tensor [identity 2; swap; identity 2] in
  let swap_23 := tensor [identity 4; swap] in
  c1 <- qmul (smul cnot_fid cnot_12) init_state ;;
  succ <- qmul c1 (dag cnot_12) ;;
  s1 <- qmul (smul (1 - cnot_fid)%K swap_23) swap_12 ;;
  red <- ptrace init_state [0; 3]%nat ;;
  s2 <- qmul s1 (sdiv (tensor [red; identity 4]) (K_of_Z 4)) ;;
  s3 <- qmul s2 (dag swap_12) ;;
  fail <- qmul s3 (dag swap_23) ;;
  qadd succ fail.

(** The lifted POVM of line 85-87, [tensor(identity(2), povm, identity(4))]. *)
Definition merge_povms (povm0 povm1 : Qobj) : list Qobj :=
  let povm0 := tensor [identity 2; povm0; identity 4] in
  let povm1 := tensor [identity 2; povm1; identity 4] in
  [povm0; povm1].

(** Lines 90-99.  The partial trace of line 91 is evaluated and its value is
    not bound to anything; [ghz_state] is assigned by neither [if] when
    [res] is not 0 or 1. *)
Definition merge_correct (res : Z) (post_meas_state : Qobj) : result Qobj :=
  ptrace post_meas_state [0; 1; 2]%nat ;;;
  let ghz_state := if res =? 0 then Some post_meas_state else None in
  ghz_state <-
    (if res =? 1 then
       let x_gate := tensor [sigmax; identity 4] in
       g <- conj_by x_gate post_meas_state ;; Ok (Some g)
     else Ok ghz_state) ;;
  match ghz_state with
  | Some g => Ok g
  | None => Err (UnboundLocalError "ghz_state")
  end.

(** ** gate_teleport: the steps that involve no measurement *)

(** Lines 126-128. *)
Definition plus_dm : result Qobj :=
  s <- qadd (basis 2 0) (basis 2 1) ;;
  let plus_state := sdiv s ksqrt2 in
  qmul plus_state (dag plus_state).

Definition zero_dm : result Qobj := qmul (basis 2 0) (dag (basis 2 0)).

(** Line 142 and line 197: the combination of the four branches. *)
Definition mix_branches (cnot_fid : K)
    (state_both_succ state_a_succ state_b_succ state_both_fail : Qobj)
  : result Qobj :=
  one <- qadd state_a_succ state_b_succ ;;
  t <- qadd (smul (ksquare cnot_fid) state_both_succ) (smul cnot_fid one) ;;
  qadd t (smul (ksquare (1 - cnot_fid)%K) state_both_fail).

(** Lines 131-142: first teleported CNOT. *)
Definition round1_post_cnot (plus_dm : Qobj) (bell_dm_1 : pyobj)
    (zero_dm : Qobj) (cnot_fid : K) : result Qobj :=
  b1 <- as_qobj bell_dm_1 ;;
  let init_state := tensor [plus_dm; b1; zero_dm] in
  let cnot_01 := tensor [cnot; identity 4] in
  let cnot_23 := tensor [identity 4; cnot] in
  cnot_01_23 <- qmul cnot_01 cnot_23 ;;
  state_both_succ <- conj_by cnot_01_23 init_state ;;
  a <- conj_by cnot_01 init_state ;;
  a' <- ptrace a [0; 1]%nat ;;
  let state_01_succ := tensor [a'; sdiv (identity 4) (K_of_Z 4)] in
  b <- conj_by cnot_23 init_state ;;
  b' <- ptrace b [2; 3]%nat ;;
  let state_23_succ := tensor [sdiv (identity 4) (K_of_Z 4); b'] in
  let state_both_fail :=
    tensor [sdiv (identity 4) (K_of_Z 4); sdiv (identity 4) (K_of_Z 4)] in
  mix_branches cnot_fid state_both_succ state_01_succ state_23_succ
               state_both_fail.

(** The four-way feedforward of lines 169-176 and 224-231:
    [z_gate * x_gate * rho * x_gate.dag() * z_gate.dag()] is read from the
    left. *)
Definition feedforward (var : string) (x_gate z_gate : Qobj) (ra rb : Z)
    (post_meas_state : Qobj) : result Qobj :=
  if (ra =? 0) && (rb =? 0) then Ok post_meas_state
  else if (ra =? 1) && (rb =? 0) then conj_by x_gate post_meas_state
  else if (ra =? 0) && (rb =? 1) then conj_by z_gate post_meas_state
  else if (ra =? 1) && (rb =? 1) then
    zx <- qmul z_gate x_gate ;;
    t <- qmul zx post_meas_state ;;
    t' <- qmul t (dag x_gate) ;;
    qmul t' (dag z_gate)
  else Err (UnboundLocalError var).

(** Lines 163-176. *)
Definition round1_correct (res1 res2 : Z) (post_meas2_state : Qobj)
  : result Qobj :=
  post_meas_state <- ptrace post_meas2_state [0; 3]%nat ;;
  let x_gate := tensor [identity 2; sigmax] in
  let z_gate := tensor [sigmaz; identity 2] in
  feedforward "final_state" x_gate z_gate res1 res2 post_meas_state.

(** Lines 181-197: second teleported CNOT. *)
Definition round2_post_cnot (final_state : Qobj) (bell_dm_2 : pyobj)
    (zero_dm : Qobj) (cnot_fid : K) : result Qobj :=
  final_state <- conj_by swap final_state ;;
  b2 <- as_qobj bell_dm_2 ;;
  let init_state := tensor [final_state; b2; zero_dm] in
  let cnot_12 := tensor [identity 2; cnot; identity 4] in
  let cnot_34 := tensor [identity 8; cnot] in
  cnot_12_34 <- qmul cnot_12 cnot_34 ;;
  state_both_succ <- conj_by cnot_12_34 init_state ;;
  a <- conj_by cnot_12 init_state ;;
  a' <- ptrace a [0; 1; 2]%nat ;;
  let state_12_succ := tensor [a'; sdiv (identity 4) (K_of_Z 4)] in
  b <- conj_by cnot_34 init_state ;;
  b' <- ptrace b [0; 3; 4]%nat ;;
  let state_34_succ := tensor [sdiv (identity 4) (K_of_Z 4); b'] in
  let swap_01 := tensor [swap; identity 8] in
  let swap_12 := tensor [identity 2; swap; identity 2] in
  s1 <- qmul swap_01 swap_12 ;;
  s2 <- qmul s1 state_34_succ ;;
  s3 <- qmul s2 (dag swap_12) ;;
  state_34_succ <- qmul s3 (dag swap_01) ;;
  r0 <- ptrace init_state [0]%nat ;;
  let state_both_fail :=
    tensor [r0; sdiv (identity 4) (K_of_Z 4); sdiv (identity 4) (K_of_Z 4)] in
  mix_branches cnot_fid state_both_succ state_12_succ state_34_succ
               state_both_fail.

(** Lines 218-231. *)
Definition round2_correct (res2 res3 : Z) (post_meas2_state : Qobj)
  : result Qobj :=
  post_meas_state <- ptrace post_meas2_state [0; 1; 4]%nat ;;
  let x_gate := tensor [identity 4; sigmax] in
  let z_gate := tensor [identity 2; sigmaz; identity 2] in
  feedforward "ghz_state" x_gate z_gate res2 res3 post_meas_state.

(** ** A seeded random source and a sharp measurement *)

(** A random source with a fixed seed: the sequence of its uniform draws in
    [0, 1) and the number of draws consumed so far. *)
Record SeededRng : Type := mkRng { draws : nat -> K; cursor : nat }.

Definition next_uniform (r : SeededRng) : K * SeededRng :=
  (draws r (cursor r), mkRng (draws r) (S (cursor r))).

(** The first outcome whose cumulative probability exceeds the draw. *)
Fixpoint pick_outcome (u acc : K) (k : Z) (cands : list (K * Qobj))
  : option (Z * K * Qobj) :=
  match cands with
  | [] => None
  | (p, E) :: rest =>
      let acc' := (acc + p)%K in
      if kltb u acc' then Some (k, p, E) else pick_outcome u acc' (k + 1) rest
  end.

Fixpoint outcome_probabilities (state : Qobj) (povms : list Qobj)
  : result (list (K * Qobj)) :=
  match povms with
  | [] => Ok []
  | E :: rest =>
      t <- qmul E state ;;
      ps <- outcome_probabilities state rest ;;
      Ok ((tr t, E) :: ps)
  end.

(** Modelled from the spec: [measure_povm] for a sharp measurement (spec
    section 4.3).  Outcome k has probability Tr(M_k rho) and is selected by
    one uniform draw against the cumulative probabilities; the
    post-measurement state is M_k^(1/2) rho M_k^(1/2) divided by that
    probability.  The square root is taken to be M_k itself, which is exact
    when every M_k is a projector, the case meas_fid = 1, the only one in
    which a statement below looks at the state this function returns; where
    it is passed along with another fidelity, the statement is about the
    exception raised and about nothing else. *)
Definition sharp_measure_povm (state : Qobj) (povms : list Qobj)
    (r : SeededRng) : result (Z * Qobj) * SeededRng :=
  match outcome_probabilities state povms with
  | Err e => (Err e, r)
  | Ok cands =>
      let (u, r') := next_uniform r in
      match pick_outcome u k0 0 cands with
      | None => (Err (ValueError UnnormalizedState), r')
      | Some (k, p, E) =>
          (collapsed <- conj_by E state ;; Ok (k, sdiv collapsed p), r')
      end
  end.

(** ** Measurement, and the two protocols *)

Section Protocols.

(** [measure_povm(state, povms)] draws an outcome at random and returns it
    with the post-measurement state; the library function is not part of the
    repository, so the protocols take it as a parameter, with the state of
    the random source it reads and advances. *)
Variable Rng : Type.
Variable measure_povm : Qobj -> list Qobj -> Rng -> result (Z * Qobj) * Rng.

(** Statements that may raise and may draw random numbers. *)
Definition M (A : Type) : Type := Rng -> result A * Rng.

Definition mbind {A B : Type} (c : M A) (k : A -> M B) : M B :=
  fun r =>
    match c r with
    | (Ok a, r') => k a r'
    | (Err e, r') => (Err e, r')
    end.

Definition lift {A : Type} (c : result A) : M A := fun r => (c, r).

Notation "x <~ c ;; k" := (mbind c (fun x => k))
  (at level 61, c at next level, right associativity).
Notation "' p <~ c ;; k" := (mbind c (fun x => match x with p => k end))
  (at level 61, p pattern, c at next level, right associativity).

(** Lines 74-99 of [merge], after the two calls of [bell_dm]. *)
Definition merge_body (bell_dm_1 bell_dm_2 : pyobj) (cnot_fid meas_fid : K)
  : M Qobj :=
  post_cnot_state <~ lift (merge_post_cnot bell_dm_1 bell_dm_2 cnot_fid) ;;
  povms <~ lift (noisy_meas meas_fid) ;;
  ' (povm0, povm1) <~ lift (unpack2 povms) ;;
  let povms := merge_povms povm0 povm1 in
  ' (res, post_meas_state) <~ measure_povm post_cnot_state povms ;;
  lift (merge_correct res post_meas_state).

(** [merge] (lines 55-99).  Lines 72 and 73 call [bell_dm] with one
    positional argument. *)
Definition merge (state1 state2 : list K) (cnot_fid meas_fid : K) : M Qobj :=
  bell_dm_1 <~
    lift (py_call2 "bell_dm" "state" "elem_order" bell_dm (Some state1) None) ;;
  bell_dm_2 <~
    lift (py_call2 "bell_dm" "state" "elem_order" bell_dm (Some state2) None) ;;
  merge_body bell_dm_1 bell_dm_2 cnot_fid meas_fid.

(** Lines 144-150: Z-basis measurement of qubit 1. *)
Definition round1_measure_z (povm0 povm1 post_cnot_state : Qobj)
  : M (Z * Qobj) :=
  let povm0_1 := tensor [identity 2; povm0; identity 4] in
  let povm1_1 := tensor [identity 2; povm1; identity 4] in
  let povms_1 := [povm0_1; povm1_1] in
  measure_povm post_cnot_state povms_1.

(** Lines 152-161: X-basis measurement of qubit 2. *)
Definition round1_measure_x (povm0 povm1 post_meas1_state : Qobj)
  : M (Z * Qobj) :=
  let povm0_2 := tensor [identity 4; povm0; identity 2] in
  let povm1_2 := tensor [identity 4; povm1; identity 2] in
  let povms_2 := [povm0_2; povm1_2] in
  let hadamard_2 := tensor [identity 4; hadamard_transform; identity 2] in
  post_meas1_state <~ lift (conj_by hadamard_2 post_meas1_state) ;;
  measure_povm post_meas1_state povms_2.

(** Lines 199-205: Z-basis measurement of qubit 2. *)
Definition round2_measure_z (povm0 povm1 post_cnot_state : Qobj)
  : M (Z * Qobj) :=
  let povm0_2 := tensor [identity 4; povm0; identity 4] in
  let povm1_2 := tensor [identity 4; povm1; identity 4] in
  let povms_2 := [povm0_2; povm1_2] in
  measure_povm post_cnot_state povms_2.

(** Lines 207-216: X-basis measurement of qubit 3.  Line 214 binds the
    rotated state to [post_meas1_state]; line 216 measures
    [post_meas2_state]. *)
Definition round2_measure_x (povm0 povm1 post_meas2_state : Qobj)
  : M (Z * Qobj) :=
  let povm0_3 := tensor [identity 4; povm0; identity 2] in
  let povm1_3 := tensor [identity 4; povm1; identity 2] in
  let povms_3 := [povm0_3; povm1_3] in
  let hadamard_3 := tensor [identity 8; hadamard_transform; identity 2] in
  post_meas1_state <~ lift (conj_by hadamard_3 post_meas2_state) ;;
  measure_povm post_meas2_state povms_3.

(** Lines 124-233 of [gate_teleport], after the two calls of [bell_dm]. *)
Definition gate_teleport_body (bell_dm_1 bell_dm_2 : pyobj)
    (cnot_fid meas_fid : K) : M Qobj :=
  povms <~ lift (noisy_meas meas_fid) ;;
  ' (povm0, povm1) <~ lift (unpack2 povms) ;;
  plus_dm <~ lift plus_dm ;;
  zero_dm <~ lift zero_dm ;;
  post_cnot_state <~
    lift (round1_post_cnot plus_dm bell_dm_1 zero_dm cnot_fid) ;;
  ' (res1, post_meas1_state) <~ round1_measure_z povm0 povm1 post_cnot_state ;;
  ' (res2, post_meas2_state) <~ round1_measure_x povm0 povm1 post_meas1_state ;;
  final_state <~ lift (round1_correct res1 res2 post_meas2_state) ;;
  post_cnot_state <~
    lift (round2_post_cnot final_state bell_dm_2 zero_dm cnot_fid) ;;
  ' (res2, post_meas2_state) <~ round2_measure_z povm0 povm1 post_cnot_state ;;
  ' (res3, post_meas2_state) <~ round2_measure_x povm0 povm1 post_meas2_state ;;
  lift (round2_correct res2 res3 post_meas2_state).

(** [gate_teleport] (lines 102-233).  Lines 121 and 122 call [bell_dm] with
    one positional argument. *)
Definition gate_teleport (state1 state2 : list K) (cnot_fid meas_fid : K)
  : M Qobj :=
  bell_dm_1 <~
    lift (py_call2 "bell_dm" "state" "elem_order" bell_dm (Some state1) None) ;;
  bell_dm_2 <~
    lift (py_call2 "bell_dm" "state" "elem_order" bell_dm (Some state2) None) ;;
  gate_teleport_body bell_dm_1 bell_dm_2 cnot_fid meas_fid.

End Protocols.

Arguments lift {Rng A} c _.
Arguments mbind {Rng A B} c k _.

(** ** Observations on results, and the statements of the specification *)

Definition rmap {A B : Type} (f : A -> B) (c : result A) : result B :=
  match c with
  | Ok a => Ok (f a)
  | Err e => Err e
  end.

Definition shape (A : Qobj) : nat * nat := (nrows A, ncols A).

Definition is_ok {A : Type} (c : result A) : bool :=
  match c with
  | Ok _ => true
  | Err _ => false
  end.

(** The projector on the k-th computational state of one qubit. *)
Definition projector (k : nat) : Qobj := mmul (basis 2 k) (dag (basis 2 k)).

(** The POVM element of the specification (section 4.3):
    M_k = fidelity |k><k| + (1 - fidelity) |1-k><1-k|. *)
Definition spec_povm (fidelity : K) (k : nat) : Qobj :=
  madd (smul fidelity (projector k))
       (smul (1 - fidelity)%K (projector (1 - k))).

(** The four-branch mixture of the specification (section 4.5): weight
    cnot_fid^2 on the branch where both CNOTs succeed, cnot_fid (1 - cnot_fid)
    on each branch where exactly one succeeds, (1 - cnot_fid)^2 on the branch
    where both fail. *)
Definition spec_mix_branches (cnot_fid : K)
    (state_both_succ state_a_succ state_b_succ state_both_fail : Qobj)
  : Qobj :=
  let w := (cnot_fid * (1 - cnot_fid))%K in
  madd (madd (madd (smul (ksquare cnot_fid) state_both_succ)
                   (smul w state_a_succ))
             (smul w state_b_succ))
       (smul (ksquare (1 - cnot_fid)%K) state_both_fail).

(** Concrete inputs used by the examples below. *)
Definition half : K := K_of_Q (1 # 2).
Definition two : K := K_of_Z 2.

(** The projectors on the Bell states Phi+ and Psi+. *)
Definition bell_projector (label : string) : Qobj :=
  match bell_state label with
  | Ok ket => mmul ket (dag ket)
  | Err _ => []
  end.
Definition phi_plus : Qobj := bell_projector "00".
Definition psi_plus : Qobj := bell_projector "10".

(** The canonical 3-qubit GHZ state (|000> + |111>)/sqrt 2 of the
    specification, as a density operator. *)
Definition ghz_dm : Qobj :=
  let ket000 := tensor [basis 2 0; basis 2 0; basis 2 0] in
  let ket111 := tensor [basis 2 1; basis 2 1; basis 2 1] in
  let ghz := sdiv (madd ket000 ket111) ksqrt2 in
  mmul ghz (dag ghz).

(** Whether the qubits [sel] of a returned operator are in the GHZ state. *)
Definition reduces_to_ghz (out : result Qobj) (sel : list nat) : result bool :=
  rmap (meqb ghz_dm) (A <- out ;; ptrace A sel).

(** The vector [1, 0, 0, 0] and a Werner-like vector [7/10, 1/10, 1/10, 1/10]. *)
Definition pure_bds : list K := [k1; k0; k0; k0].
Definition werner_bds : list K :=
  [K_of_Q (7 # 10); K_of_Q (1 # 10); K_of_Q (1 # 10); K_of_Q (1 # 10)].

(** Random sources whose every draw is 0, respectively 3/4. *)
Definition rng_low : SeededRng := mkRng (fun _ => k0) 0.
Definition rng_high : SeededRng := mkRng (fun _ => K_of_Q (3 # 4)) 0.

(** A measurement that reports outcome 0 and hands back, untouched, the
    state it was given: it makes the argument of [measure_povm] visible in
    the result. *)
Definition echo_measure_povm (state : Qobj) (povms : list Qobj) (r : unit)
  : result (Z * Qobj) * unit :=
  (Ok (0, state), r).

(** Lines 126-142, and lines 128 and 181-197, of [gate_teleport] as
    functions of the Bell operator and of the CNOT fidelity. *)
Definition round1_state (bell_dm_1 : pyobj) (cnot_fid : K) : result Qobj :=
  p <- plus_dm ;;
  z <- zero_dm ;;
  round1_post_cnot p bell_dm_1 z cnot_fid.

Definition round2_state (final_state : Qobj) (bell_dm_2 : pyobj)
    (cnot_fid : K) : result Qobj :=
  z <- zero_dm ;;
  round2_post_cnot final_state bell_dm_2 z cnot_fid.

(** n qubits, all in state |0>. *)
Definition zeros (n : nat) : Qobj := tensor (repeat (projector 0) n).

(** What the accumulator of the loop of [bell_dm] holds: 0, or a 4 x 4
    operator. *)
Definition acc_ok (acc : pyobj) : Prop :=
  match acc with
  | PyZero => True
  | PyQobj B => shape B = (4, 4)%nat
  end.

(** The index of a pair is formatted as a label [bell_state] knows. *)
Definition has_label (p : K * Z) : bool :=
  is_ok (bell_state (format_b (snd p))).

(** A result that is not the ParameterOutOfRange error, and a statement
    that never ends in it. *)
Definition no_range_error {A : Type} (c : result A) : Prop :=
  c <> Err (ValueError ParameterOutOfRange).

Definition never_range_error {Rng A : Type} (c : Rng -> result A * Rng)
  : Prop :=
  forall r, no_range_error (fst (c r)).

(** ** Definitions used by the further properties *)

(** The indices 2 and 3, those of Psi+ and Psi-. *)
Definition is_psi_index (idx : Z) : bool := (idx =? 2) || (idx =? 3).

(** A two-qubit operator that vanishes outside the block of |01> and |10>,
    is symmetric, and has one value on the diagonal of the block. *)
Definition psi_block (a b : K) : Qobj :=
  [ [0%K; 0%K; 0%K; 0%K];
    [0%K; a; b; 0%K];
    [0%K; b; a; 0%K];
    [0%K; 0%K; 0%K; 0%K] ].

(** An n x n operator: n rows of n entries. *)
Definition square (n : nat) (A : Qobj) : bool :=
  (nrows A =? n)%nat && forallb (fun r => (List.length r =? n)%nat) A.

(** The sum of the elements of a POVM. *)
Definition povm_total (povms : list Qobj) : result Qobj :=
  match povms with
  | [] => Err (ValueError UnpackMismatch)
  | E :: rest => fold_left (fun acc F => A <- acc ;; qadd A F) rest (Ok E)
  end.

(** A measurement that reports outcome 0 and hands back the sum of the POVM
    elements it was given in place of a state: it makes the POVM argument
    of [measure_povm] visible in the result. *)
Definition total_measure_povm (state : Qobj) (povms : list Qobj) (r : unit)
  : result (Z * Qobj) * unit :=
  (rmap (pair 0) (povm_total povms), r).

(** * Ring topology set-up (mpi_tests/sequential_ring.py)

    [ring_network] builds the node names, the BSM nodes, the channels and
    the forwarding rules of a ring before it starts the simulation.  The
    classes it instantiates belong to the sequence package; the embedding
    records the constructor and method calls the script makes, with their
    arguments, in program order.  A router object is represented by the
    name it was constructed with, which is what [node.name] reads.
    A statement that raises is [None]: the exceptions this part of the
    script can raise are the ValueError of [int] and of [list.remove] and
    the ZeroDivisionError of [%].  Line numbers in this part are those of
    mpi_tests/sequential_ring.py. *)

Definition obind {A B : Type} (c : option A) (k : A -> option B) : option B :=
  match c with
  | Some a => k a
  | None => None
  end.

Declare Scope ring_scope.
Delimit Scope ring_scope with ring.
Notation "x <<- c ;; k" := (obind c (fun x => k))
  (at level 61, c at next level, right associativity) : ring_scope.
Local Open Scope ring_scope.

(** [for x in l: body], where each iteration emits records; the first
    iteration that raises ends the loop. *)
Fixpoint for_each {A B : Type} (l : list A) (body : A -> option (list B))
    : option (list B) :=
  match l with
  | [] => Some []
  | x :: rest =>
      ys <<- body x ;;
      zs <<- for_each rest body ;;
      Some (ys ++ zs)%list
  end.

(** ["%d" % i] *)
Definition format_d (i : Z) : string :=
  DecimalString.NilZero.string_of_int (Z.to_int i).

(** [range(n)] *)
Definition py_range (n : Z) : list Z := map Z.of_nat (seq 0 (Z.to_nat n)).

(** [a % b] on Python integers: floored, and ZeroDivisionError for b = 0 *)
Definition py_mod (a b : Z) : option Z :=
  if b =? 0 then None else Some (a mod b).

(** [s.replace(old, new)]: every non-overlapping occurrence, left to right.
    [skip] counts the characters of a matched occurrence still to drop. *)
Fixpoint replace_scan (old new s : string) (skip : nat) : string :=
  match s with
  | EmptyString => EmptyString
  | String c rest =>
      match skip with
      | S k => replace_scan old new rest k
      | O =>
          if String.prefix old s
          then (new ++ replace_scan old new rest (String.length old - 1))%string
          else String c (replace_scan old new rest 0)
      end
  end.

Fixpoint replace_empty (new s : string) : string :=
  match s with
  | EmptyString => EmptyString
  | String c rest => String c (new ++ replace_empty new rest)%string
  end.

Definition py_replace (s old new : string) : string :=
  match old with
  | EmptyString => (new ++ replace_empty new s)%string
  | String _ _ => replace_scan old new s 0
  end.

(** [l.remove(x)]: drops the first occurrence, ValueError without one *)
Fixpoint py_remove (l : list string) (x : string) : option (list string) :=
  match l with
  | [] => None
  | y :: rest =>
      if String.eqb y x then Some rest
      else rest' <<- py_remove rest x ;; Some (y :: rest')
  end.

(** lines 30, 43, 51 and 41, 56 *)
Definition node_name (node_id : Z) : string :=
  ("Node_" ++ format_d node_id)%string.
Definition bsm_name (bsm_id : Z) : string :=
  ("BSM_" ++ format_d bsm_id)%string.

(** lines 26-38: one router per id; [node.set_seed(node_id)] *)
Record QuantumRouter : Type :=
  mkRouter { router_name : string; router_seed : Z }.

Definition routers (ring_size : Z) : list QuantumRouter :=
  map (fun node_id => mkRouter (node_name node_id) node_id)
      (py_range ring_size).

Definition router_names (ring_size : Z) : list string :=
  map node_name (py_range ring_size).

(** lines 40-47: [BSMNode(node_name, tl, [pre_node_name, post_node_name])]
    and [node.set_seed(ring_size + bsm_id)] *)
Record BSMNode : Type :=
  mkBSM { bsm_node_name : string; other_nodes : list string; bsm_seed : Z }.

Definition bsm_nodes (ring_size : Z) : option (list BSMNode) :=
  for_each (py_range ring_size) (fun bsm_id =>
    let node_name_ := bsm_name bsm_id in
    pre <<- py_mod (bsm_id - 1) ring_size ;;
    let pre_node_name := node_name pre in
    let post_node_name := node_name bsm_id in
    Some [mkBSM node_name_ [pre_node_name; post_node_name]
                (ring_size + bsm_id)]).

(** lines 49-60: [ClassicalChannel("cc_%s_%s" % (src.name, dst_name), ...)]
    with [cc.set_ends(src, dst_name)] *)
Record ClassicalChannel : Type :=
  mkCC { cc_name : string; cc_src : string; cc_dst : string }.

Definition new_cc (src_name dst_name : string) : ClassicalChannel :=
  mkCC ("cc_" ++ src_name ++ "_" ++ dst_name)%string src_name dst_name.

Definition classical_channels (ring_size : Z) (srcs : list string)
    : list ClassicalChannel :=
  flat_map (fun src_name =>
    flat_map (fun dst_index =>
      (let dst_name := node_name dst_index in
       if negb (String.eqb dst_name src_name)
       then [new_cc src_name dst_name] else [])
      ++
      (let dst_name := bsm_name dst_index in
       if negb (String.eqb dst_name src_name)
       then [new_cc src_name dst_name] else []))%list
      (py_range ring_size))
    srcs.

(** lines 62-77: each router gets a quantum channel to two BSM nodes,
    [qc.set_ends(src, bsm_name)], and registers the router behind each,
    [src.add_bsm_node(bsm_name, router_name)] *)
Record BSMLink : Type :=
  mkLink { link_qc_name : string; link_src : string; link_bsm : string;
           link_router : string }.

Definition new_link (src_name bsm router : string) : BSMLink :=
  mkLink ("qc_" ++ src_name ++ "_" ++ bsm)%string src_name bsm router.

(** lines 79-97: [add_forwarding_rule(dst, bsm_name)] on the router [node] *)
Record ForwardingRule : Type :=
  mkRule { rule_node : string; rule_dst : string; rule_next : string }.

(** lines 83-94; the variable holding the next hop is called [bsm_name] in
    the script *)
Definition next_hop (ring_size node_index dst_index : Z) : option string :=
  if Z.abs (node_index - dst_index)
       <? ring_size - Z.abs (node_index - dst_index)
  then
    if dst_index >? node_index
    then m <<- py_mod (node_index + 1) ring_size ;; Some (node_name m)
    else m <<- py_mod (node_index - 1) ring_size ;; Some (node_name m)
  else
    if dst_index >? node_index
    then m <<- py_mod (node_index - 1) ring_size ;; Some (node_name m)
    else m <<- py_mod (node_index + 1) ring_size ;; Some (node_name m).

(** lines 100-108: [RandomRequestApp(node, others, seed, ...)] *)
Record RandomRequestApp : Type :=
  mkApp { app_node : string; app_others : list string; app_seed : Z }.

Section RingNetwork.

(** [int(s)] of Python; [None] is its ValueError. *)
Variable py_int : string -> option Z.

Definition name_index (name : string) : option Z :=
  py_int (py_replace name "Node_" "").

Definition quantum_links (ring_size : Z) (routers : list QuantumRouter)
    : option (list BSMLink) :=
  for_each routers (fun src =>
    bsm_index <<- name_index (router_name src) ;;
    let bsm_name1 := bsm_name bsm_index in
    r1 <<- py_mod (bsm_index + 1) ring_size ;;
    let router_name1 := node_name r1 in
    b2 <<- py_mod (bsm_index - 1) ring_size ;;
    let bsm_name2 := bsm_name b2 in
    r2 <<- py_mod (bsm_index - 1) ring_size ;;
    let router_name2 := node_name r2 in
    Some [new_link (router_name src) bsm_name1 router_name1;
          new_link (router_name src) bsm_name2 router_name2]).

Definition forwarding_rules (ring_size : Z) (routers : list QuantumRouter)
    (router_names : list string) : option (list ForwardingRule) :=
  for_each routers (fun node =>
    node_index <<- name_index (router_name node) ;;
    for_each router_names (fun dst =>
      if negb (String.eqb (router_name node) dst)
      then
        dst_index <<- name_index dst ;;
        hop <<- next_hop ring_size node_index dst_index ;;
        Some [mkRule (router_name node) dst hop]
      else Some [])).

Definition apps (routers : list QuantumRouter) (router_names : list string)
    : option (list RandomRequestApp) :=
  for_each routers (fun node =>
    seed <<- name_index (router_name node) ;;
    let app_node_name := router_name node in
    others <<- py_remove router_names app_node_name ;;
    Some [mkApp app_node_name others seed]).

(** The router reached from [node] after [k] hops towards [dst], each
    hop being the one lines 80-94 compute at the router it leaves. *)
Fixpoint route (ring_size : Z) (k : nat) (node dst : string)
    : option string :=
  match k with
  | O => Some node
  | S k' =>
      node_index <<- name_index node ;;
      dst_index <<- name_index dst ;;
      hop <<- next_hop ring_size node_index dst_index ;;
      route ring_size k' hop dst
  end.

End RingNetwork.

(** [int] restricted to what the script feeds it: the decimal strings that
    ["%d"] produces are read back by the Standard Library's parser. *)
Definition decimal_int (s : string) : option Z :=
  option_map Z.of_int (DecimalString.NilZero.int_of_string s).

(** Observations on the ring: the index of the next hop chosen by lines
    83-94, the distance along the ring, and the node reached after [k]
    hops towards [d]. *)
Definition hop_index (ring_size n d : Z) : Z :=
  if Z.abs (n - d) <? ring_size - Z.abs (n - d)
  then if d >? n then (n + 1) mod ring_size else (n - 1) mod ring_size
  else if d >? n then (n - 1) mod ring_size else (n + 1) mod ring_size.

Definition ring_dist (ring_size a b : Z) : Z :=
  Z.min (Z.abs (a - b)) (ring_size - Z.abs (a - b)).

Fixpoint walk (ring_size : Z) (k : nat) (n d : Z) : Z :=
  match k with
  | O => n
  | S k' => walk ring_size k' (hop_index ring_size n d) d
  end.

(** Every character of [s] satisfies [p]. *)
Fixpoint all_chars (p : Ascii.ascii -> bool) (s : string) : bool :=
  match s with
  | EmptyString => true
  | String c rest => p c && all_chars p rest
  end.

Definition not_N (c : Ascii.ascii) : bool :=
  negb (String.eqb (String c EmptyString) "N").

Definition in_ring (ring_size i : Z) : Prop := 0 <= i < ring_size.

(** lines 134-163: the columns of traffic.csv.  [V] is the type of the
    values the applications report; a reservation is a sequence that line
    158 unpacks into five names, which raises ValueError for any other
    length. *)
Section Traffic.

Variable V : Type.

(** what the loop reads from a router: [node.name], [node.app.reserves],
    [node.app.paths], [node.app.get_wait_time()] and
    [node.app.get_throughput()] *)
Record AppReport : Type :=
  mkReport { report_name : string;
             report_reserves : list (list V);
             report_paths : list V;
             report_wait_time : list V;
             report_throughput : list V }.

Record TrafficInfo : Type :=
  mkTraffic { initiators : list string;
              responders : list V;
              start_times : list V;
              end_times : list V;
              memory_sizes : list V;
              fidelities : list V;
              paths : list V;
              wait_times : list V;
              throughputs : list V }.

Definition unpack5 (reservation : list V) : option (V * V * V * V * V) :=
  match reservation with
  | [responder; s_t; e_t; size; fidelity] =>
      Some (responder, s_t, e_t, size, fidelity)
  | _ => None
  end.

Fixpoint zip4 {A B C D : Type} (a : list A) (b : list B) (c : list C)
    (d : list D) : list (A * B * C * D) :=
  match a, b, c, d with
  | x :: a', y :: b', z :: c', w :: d' => (x, y, z, w) :: zip4 a' b' c' d'
  | _, _, _, _ => []
  end.

(** lines 158-167 *)
Definition append_row (initiator : string) (t : TrafficInfo)
    (row : list V * V * V * V) : option TrafficInfo :=
  let '(reservation, path, wait_time, throughput) := row in
  fields <<- unpack5 reservation ;;
  let '(responder, s_t, e_t, size, fidelity) := fields in
  Some (mkTraffic (initiators t ++ [initiator])
                  (responders t ++ [responder])
                  (start_times t ++ [s_t])
                  (end_times t ++ [e_t])
                  (memory_sizes t ++ [size])
                  (fidelities t ++ [fidelity])
                  (paths t ++ [path])
                  (wait_times t ++ [wait_time])
                  (throughputs t ++ [throughput]))%list.

Fixpoint rows_loop (initiator : string) (t : TrafficInfo)
    (rows : list (list V * V * V * V)) : option TrafficInfo :=
  match rows with
  | [] => Some t
  | row :: rest =>
      t' <<- append_row initiator t row ;;
      rows_loop initiator t' rest
  end.

(** lines 146-157 *)
Definition node_rows (node : AppReport) : list (list V * V * V * V) :=
  let reserves := report_reserves node in
  let _wait_times := report_wait_time node in
  let _throughputs := report_throughput node in
  let min_size := Nat.min (List.length reserves)
                    (Nat.min (List.length _wait_times)
                             (List.length _throughputs)) in
  let reserves := firstn min_size reserves in
  let _wait_times := firstn min_size _wait_times in
  let _throughputs := firstn min_size _throughputs in
  zip4 reserves (report_paths node) _wait_times _throughputs.

Fixpoint traffic_loop (t : TrafficInfo) (routers : list AppReport)
    : option TrafficInfo :=
  match routers with
  | [] => Some t
  | node :: rest =>
      let initiator := report_name node in
      t' <<- rows_loop initiator t (node_rows node) ;;
      traffic_loop t' rest
  end.

(** lines 135-143 and 145-167 *)
Definition traffic_info (routers : list AppReport) : option TrafficInfo :=
  traffic_loop (mkTraffic [] [] [] [] [] [] [] [] []) routers.

(** The number of rows a router contributes, and whether every
    reservation it contributes has five fields. *)
Definition row_count (node : AppReport) : nat :=
  Nat.min (Nat.min (List.length (report_reserves node))
                   (List.length (report_paths node)))
          (Nat.min (List.length (report_wait_time node))
                   (List.length (report_throughput node))).

Definition five_fields (node : AppReport) : bool :=
  forallb (fun reservation => (List.length reservation =? 5)%nat)
          (firstn (row_count node) (report_reserves node)).

Definition columns_have_length (n : nat) (t : TrafficInfo) : Prop :=
  List.length (initiators t) = n /\ List.length (responders t) = n
  /\ List.length (start_times t) = n /\ List.length (end_times t) = n
  /\ List.length (memory_sizes t) = n /\ List.length (fidelities t) = n
  /\ List.length (paths t) = n /\ List.length (wait_times t) = n
  /\ List.length (throughputs t) = n.

End Traffic.

Arguments mkReport {V}.
Arguments mkTraffic {V}.
Arguments initiators {V}.
Arguments traffic_info {V}.
Arguments row_count {V}.
Arguments five_fields {V}.
Arguments columns_have_length {V}.

(** ** Lemmas on the scalars and the operator algebra *)

Lemma keqb_eq (x y : K) : keqb x y = true -> x = y.
Proof.
  destruct x as [a b], y as [c d]; unfold keqb; cbn [rat irr].
  intros H; apply andb_true_iff in H as [H1 H2].
  apply Qeq_bool_eq, Qc_is_canon in H1.
  apply Qeq_bool_eq, Qc_is_canon in H2.
  now subst.
Qed.

Lemma keqb_refl (x : K) : keqb x x = true.
Proof.
  unfold keqb; apply andb_true_iff; split; apply Qeq_eq_bool; reflexivity.
Qed.

Lemma K_ring : ring_theory k0 k1 kadd kmul ksub kopp (@eq K).
Proof.
  constructor; intros;
    repeat match goal with x : K |- _ => destruct x end;
    unfold kadd, kmul, ksub, kopp, k0, k1; cbn [rat irr]; f_equal; ring.
Qed.

Add Ring K_ring_inst : K_ring.

Lemma ksqrt2_square : (ksqrt2 * ksqrt2)%K = K_of_Z 2.
Proof. apply keqb_eq; vm_compute; reflexivity. Qed.

Lemma list_eqb_eq {A : Type} (eqb : A -> A -> bool)
    (eqb_eq : forall a b, eqb a b = true -> a = b) :
  forall l m, list_eqb eqb l m = true -> l = m.
Proof.
  induction l as [|a l IH]; destruct m as [|b m]; simpl; try discriminate.
  - reflexivity.
  - intros H. apply andb_true_iff in H as [H1 H2].
    f_equal; [now apply eqb_eq | now apply IH].
Qed.

Lemma meqb_eq (A B : Qobj) : meqb A B = true -> A = B.
Proof.
  apply list_eqb_eq. intros a b. apply list_eqb_eq. exact keqb_eq.
Qed.

Ltac k_compute := apply keqb_eq; vm_compute; reflexivity.

(** Equality of two explicit operators, entry by entry, each entry an
    identity of the ring K. *)
Ltac entrywise :=
  repeat match goal with
         | |- Ok _ = Ok _ => apply f_equal
         | |- @cons _ _ _ = @cons _ _ _ => apply f_equal2
         | |- @nil _ = @nil _ => reflexivity
         end.
Ltac m_ring := cbv -[kadd kmul ksub kopp k0 k1 kdiv]; entrywise; ring.
Ltac m_compute := apply meqb_eq; vm_compute; reflexivity.

Lemma half_complement : (1 - half)%K = half.
Proof. k_compute. Qed.

Lemma noisy_meas_entries (fid : K) :
  noisy_meas fid
  = Ok [ [[fid; 0%K]; [0%K; (1 - fid)%K]];
         [[(1 - fid)%K; 0%K]; [0%K; fid]] ].
Proof.
  m_ring.
Qed.

Lemma spec_povm_entries (fid : K) :
  spec_povm fid 0 = [[fid; 0%K]; [0%K; (1 - fid)%K]]
  /\ spec_povm fid 1 = [[(1 - fid)%K; 0%K]; [0%K; fid]].
Proof.
  split; m_ring.
Qed.

(** ** noisy_meas *)

(** C9. For every fidelity [fid], [noisy_meas fid] returns the ordered pair
    [M0, M1] with M_k = fid |k><k| + (1 - fid) |1-k><1-k| in the
    computational basis, that is M0 = diag(fid, 1 - fid) and
    M1 = diag(1 - fid, fid), and M0 + M1 is the identity on one qubit.
    [noisy_meas 1] is the pair of projectors |0><0|, |1><1| (the exact
    projective Z measurement); [noisy_meas (1/2)] is the pair
    identity/2, identity/2, for which the outcome weight Tr(M_k rho) is
    Tr(rho)/2 whatever the state rho. *)
Theorem noisy_meas_is_fidelity_povm (fid : K) :
  noisy_meas fid = Ok [spec_povm fid 0; spec_povm fid 1]
  /\ spec_povm fid 0 = [[fid; 0%K]; [0%K; (1 - fid)%K]]
  /\ spec_povm fid 1 = [[(1 - fid)%K; 0%K]; [0%K; fid]]
  /\ qadd (spec_povm fid 0) (spec_povm fid 1) = Ok (identity 2)
  /\ noisy_meas 1%K = Ok [projector 0; projector 1]
  /\ noisy_meas half = Ok [sdiv (identity 2) two; sdiv (identity 2) two]
  /\ (forall a b c d : K,
        rmap tr (qmul (sdiv (identity 2) two) [[a; b]; [c; d]])
        = Ok ((a + d) / two)%K).
Proof.
  destruct (spec_povm_entries fid) as [E0 E1].
  refine (conj _ (conj E0 (conj E1 (conj _ (conj _ (conj _ _)))))).
  - rewrite E0, E1. apply noisy_meas_entries.
  - rewrite E0, E1.
    cbv -[kadd kmul ksub kopp k0 k1 kdiv]; entrywise; ring.
  - rewrite noisy_meas_entries.
    apply f_equal, f_equal2; [ | apply f_equal2; [ | reflexivity ] ];
      m_compute.
  - rewrite noisy_meas_entries, half_complement.
    apply f_equal, f_equal2; [ | apply f_equal2; [ | reflexivity ] ];
      m_compute.
  - intros a b c d.
    cbv -[kadd kmul ksub kopp k0 k1 kinv two]; entrywise; ring.
Qed.

(** ** The two entry points *)

Lemma bell_dm_one_argument (state : list K) :
  py_call2 "bell_dm" "state" "elem_order" bell_dm (Some state) None
  = Err (TypeError
           "bell_dm() missing 1 required positional argument: 'elem_order'").
Proof. reflexivity. Qed.

Section EntryPoints.

Variable Rng : Type.
Variable measure_povm : Qobj -> list Qobj -> Rng -> result (Z * Qobj) * Rng.

Lemma merge_raises (state1 state2 : list K) (cnot_fid meas_fid : K) (r : Rng) :
  merge Rng measure_povm state1 state2 cnot_fid meas_fid r
  = (Err (missing_argument "bell_dm" "elem_order"), r).
Proof. reflexivity. Qed.

Lemma gate_teleport_raises (state1 state2 : list K) (cnot_fid meas_fid : K)
    (r : Rng) :
  gate_teleport Rng measure_povm state1 state2 cnot_fid meas_fid r
  = (Err (missing_argument "bell_dm" "elem_order"), r).
Proof. reflexivity. Qed.

(** C2. For every choice of arguments, [merge] and [gate_teleport] raise a
    TypeError: each calls [bell_dm] with a single positional argument while
    [bell_dm] requires [state] and [elem_order].  The error is raised by the
    first statement, before any gate is applied or any measurement drawn
    (the random source is returned as it was received), so neither entry
    point ever returns a density operator.  A call that supplies both
    arguments does run the body of [bell_dm]. *)
Theorem entry_points_raise_TypeError
    (state1 state2 : list K) (cnot_fid meas_fid : K) (r : Rng) :
  let missing :=
    TypeError "bell_dm() missing 1 required positional argument: 'elem_order'"
  in
  py_call2 "bell_dm" "state" "elem_order" bell_dm (Some state1) None
    = Err missing
  /\ (forall elem_order,
        py_call2 "bell_dm" "state" "elem_order" bell_dm (Some state1)
                 (Some elem_order)
        = bell_dm state1 elem_order)
  /\ merge Rng measure_povm state1 state2 cnot_fid meas_fid r
     = (Err missing, r)
  /\ gate_teleport Rng measure_povm state1 state2 cnot_fid meas_fid r
     = (Err missing, r)
  /\ (forall rho r',
        merge Rng measure_povm state1 state2 cnot_fid meas_fid r
        <> (Ok rho, r'))
  /\ (forall rho r',
        gate_teleport Rng measure_povm state1 state2 cnot_fid meas_fid r
        <> (Ok rho, r')).
Proof.
  cbv zeta. repeat apply conj.
  - apply bell_dm_one_argument.
  - reflexivity.
  - apply merge_raises.
  - apply gate_teleport_raises.
  - intros rho r'. rewrite merge_raises. discriminate.
  - intros rho r'. rewrite gate_teleport_raises. discriminate.
Qed.

End EntryPoints.

(** C8 (counterexample). With cnot_fid = meas_fid = 2, outside [0,1],
    neither [merge] nor [gate_teleport] fails with ParameterOutOfRange, and
    [noisy_meas 2] returns the operators diag(2, -1) and diag(-1, 2). *)
Lemma out_of_range_fidelity_not_rejected :
  fst (merge SeededRng sharp_measure_povm pure_bds pure_bds two two rng_low)
    <> Err (ValueError ParameterOutOfRange)
  /\ fst (gate_teleport SeededRng sharp_measure_povm pure_bds pure_bds
            two two rng_low)
     <> Err (ValueError ParameterOutOfRange)
  /\ noisy_meas two
     = Ok [ [[two; 0%K]; [0%K; kopp 1%K]]; [[kopp 1%K; 0%K]; [0%K; two]] ].
Proof.
  repeat apply conj.
  - rewrite merge_raises. discriminate.
  - rewrite gate_teleport_raises. discriminate.
  - rewrite noisy_meas_entries.
    replace (1 - two)%K with (kopp 1%K) by (symmetry; k_compute).
    reflexivity.
Qed.

Example ghz_dm_is_recognised :
  reduces_to_ghz (Ok ghz_dm) [0; 1; 2]%nat = Ok true
  /\ shape ghz_dm = (8, 8)%nat
  /\ tr ghz_dm = 1%K.
Proof.
  repeat apply conj; [ vm_compute; reflexivity .. | k_compute ].
Qed.

(** C1 (the code departs from the claim). On bds1 = bds2 = [1, 0, 0, 0] with
    cnot_fid = meas_fid = 1, [merge] does not return the GHZ operator: it
    raises the TypeError of its first statement, whatever the measurement
    would have drawn.  Run from line 74 on two Phi+ operators, it returns for
    outcome 0 a 4-qubit operator none of whose 3-qubit reductions is the GHZ
    operator, and it raises for outcome 1. *)
Theorem merge_perfect_pairs_is_not_ghz :
  (forall (Rng : Type) measure_povm (r : Rng),
      merge Rng measure_povm pure_bds pure_bds 1%K 1%K r
      = (Err (TypeError
           "bell_dm() missing 1 required positional argument: 'elem_order'"),
         r))
  /\ (let out :=
        fst (merge_body SeededRng sharp_measure_povm (PyQobj phi_plus)
               (PyQobj phi_plus) 1%K 1%K rng_low) in
      rmap shape out = Ok (16, 16)%nat
      /\ reduces_to_ghz out [0; 1; 2]%nat = Ok false
      /\ reduces_to_ghz out [0; 1; 3]%nat = Ok false
      /\ reduces_to_ghz out [0; 2; 3]%nat = Ok false
      /\ reduces_to_ghz out [1; 2; 3]%nat = Ok false)
  /\ fst (merge_body SeededRng sharp_measure_povm (PyQobj phi_plus)
            (PyQobj phi_plus) 1%K 1%K rng_high)
     = Err (ValueError DimensionMismatch).
Proof.
  split; [ | split ].
  - intros. apply merge_raises.
  - cbv zeta. repeat apply conj; vm_compute; reflexivity.
  - vm_compute. reflexivity.
Qed.

(** C3 (the code departs from the claim). On valid inputs (probability
    vectors summing to 1, fidelities 9/10) neither protocol produces a
    density operator; and started from the two calls of [bell_dm] onwards,
    on the operators of two Psi+ pairs with perfect fidelities,
    [gate_teleport] still produces none. *)
Theorem valid_inputs_yield_no_operator :
  let f := K_of_Q (9 # 10) in
  is_ok (fst (merge SeededRng sharp_measure_povm werner_bds werner_bds f f
                rng_low)) = false
  /\ is_ok (fst (gate_teleport SeededRng sharp_measure_povm werner_bds
                   werner_bds f f rng_low)) = false
  /\ fst (gate_teleport_body SeededRng sharp_measure_povm (PyQobj psi_plus)
            (PyQobj psi_plus) 1%K 1%K rng_low)
     = Err (ValueError DimensionMismatch).
Proof.
  cbv zeta. repeat apply conj.
  - reflexivity.
  - reflexivity.
  - vm_compute. reflexivity.
Qed.

(** ** The steps of the protocols *)

Lemma mix_branches_weights (f : K) :
  mix_branches f (identity 1) (identity 1) (identity 1) (identity 1)
  = Ok [[(1 + (f * f + f * f))%K]].
Proof.
  cbv -[kadd kmul ksub kopp k0 k1 kdiv]; entrywise; ring.
Qed.

Lemma spec_mix_branches_weights (f : K) :
  spec_mix_branches f (identity 1) (identity 1) (identity 1) (identity 1)
  = identity 1.
Proof.
  cbv -[kadd kmul ksub kopp k0 k1 kdiv]; entrywise; ring.
Qed.

(** C4 (the code departs from the claim). The combination of lines 142 and
    197 puts weight cnot_fid, not cnot_fid (1 - cnot_fid), on each branch
    where exactly one CNOT succeeds: on four branches of trace 1 its weights
    add up to 1 + 2 cnot_fid^2, where those of the specification add up to
    1.  In round 1, for a Psi+ pair and cnot_fid = 1/2, the post-CNOT state
    has trace 3/2; in round 2 no post-CNOT state is formed, the product of
    the 5-qubit [swap_01] with the 4-qubit [swap_12] being undefined. *)
Theorem post_cnot_mixture_is_not_convex :
  (forall f : K,
      mix_branches f (identity 1) (identity 1) (identity 1) (identity 1)
      = Ok [[(1 + (f * f + f * f))%K]])
  /\ (forall f : K,
        spec_mix_branches f (identity 1) (identity 1) (identity 1)
                          (identity 1)
        = identity 1)
  /\ rmap tr (round1_state (PyQobj psi_plus) half) = Ok (K_of_Q (3 # 2))
  /\ rmap tr (round1_state (PyQobj psi_plus) 1%K) = Ok (K_of_Z 3)
  /\ round2_state (zeros 2) (PyQobj psi_plus) half
     = Err (ValueError DimensionMismatch).
Proof.
  repeat apply conj.
  - exact mix_branches_weights.
  - exact spec_mix_branches_weights.
  - vm_compute. apply f_equal. k_compute.
  - vm_compute. apply f_equal. k_compute.
  - vm_compute. reflexivity.
Qed.

Lemma merge_correct_outcome0 (post_meas_state : Qobj) :
  merge_correct 0 post_meas_state
  = (ptrace post_meas_state [0; 1; 2]%nat ;;; Ok post_meas_state).
Proof.
  unfold merge_correct. simpl.
  destruct (ptrace post_meas_state [0; 1; 2]%nat); reflexivity.
Qed.

(** C5 (the code departs from the claim). Line 91 computes the partial
    trace and drops it: for outcome 0, [merge] hands back the post-measurement
    state it was given, and on two Phi+ pairs with perfect fidelities the
    operator returned is 16 x 16, on four qubits, not 8 x 8. *)
Theorem merge_keeps_the_measured_qubit :
  (forall post_meas_state : Qobj,
      merge_correct 0 post_meas_state
      = (ptrace post_meas_state [0; 1; 2]%nat ;;; Ok post_meas_state))
  /\ rmap shape (ptrace (zeros 4) [0; 1; 2]%nat) = Ok (8, 8)%nat
  /\ merge_correct 0 (zeros 4) = Ok (zeros 4)
  /\ rmap shape
       (fst (merge_body SeededRng sharp_measure_povm (PyQobj phi_plus)
               (PyQobj phi_plus) 1%K 1%K rng_low))
     = Ok (16, 16)%nat.
Proof.
  repeat apply conj.
  - exact merge_correct_outcome0.
  - vm_compute. reflexivity.
  - rewrite merge_correct_outcome0.
    destruct (ptrace (zeros 4) [0; 1; 2]%nat) eqn:E; [reflexivity | ].
    apply (f_equal is_ok) in E. vm_compute in E. discriminate.
  - vm_compute. reflexivity.
Qed.

(** C6 (the code departs from the claim). For outcome 0 [merge] returns the
    post-measurement state as it is, on four qubits.  For outcome 1 the
    X correction is the 3-qubit operator [tensor(sigmax(), identity(4))],
    8 x 8, and it is multiplied with the 4-qubit post-measurement state,
    16 x 16: the product is undefined and [merge] raises instead of
    returning X rho X^dagger. *)
Theorem merge_x_correction_is_undefined :
  shape (tensor [sigmax; identity 4]) = (8, 8)%nat
  /\ shape (zeros 4) = (16, 16)%nat
  /\ merge_correct 0 (zeros 4) = Ok (zeros 4)
  /\ merge_correct 1 (zeros 4) = Err (ValueError DimensionMismatch)
  /\ fst (merge_body SeededRng sharp_measure_povm (PyQobj phi_plus)
            (PyQobj phi_plus) 1%K 1%K rng_high)
     = Err (ValueError DimensionMismatch).
Proof.
  repeat apply conj.
  - vm_compute. reflexivity.
  - vm_compute. reflexivity.
  - rewrite merge_correct_outcome0.
    destruct (ptrace (zeros 4) [0; 1; 2]%nat) eqn:E; [reflexivity | ].
    apply (f_equal is_ok) in E. vm_compute in E. discriminate.
  - vm_compute. reflexivity.
  - vm_compute. reflexivity.
Qed.

Section XBasisMeasurement.

Variable Rng : Type.
Variable measure_povm : Qobj -> list Qobj -> Rng -> result (Z * Qobj) * Rng.

Lemma round1_measure_x_rotates (povm0 povm1 rho : Qobj) (r : Rng) :
  round1_measure_x Rng measure_povm povm0 povm1 rho r
  = match conj_by (tensor [identity 4; hadamard_transform; identity 2]) rho with
    | Ok rotated =>
        measure_povm rotated
          [tensor [identity 4; povm0; identity 2];
           tensor [identity 4; povm1; identity 2]] r
    | Err e => (Err e, r)
    end.
Proof.
  unfold round1_measure_x, mbind, lift.
  destruct (conj_by _ rho); reflexivity.
Qed.

Lemma round2_measure_x_does_not_rotate (povm0 povm1 rho : Qobj) (r : Rng) :
  round2_measure_x Rng measure_povm povm0 povm1 rho r
  = match conj_by (tensor [identity 8; hadamard_transform; identity 2]) rho with
    | Ok _ =>
        measure_povm rho
          [tensor [identity 4; povm0; identity 2];
           tensor [identity 4; povm1; identity 2]] r
    | Err e => (Err e, r)
    end.
Proof.
  unfold round2_measure_x, mbind, lift.
  destruct (conj_by _ rho); reflexivity.
Qed.

End XBasisMeasurement.

Lemma hadamard_3_moves_zeros :
  conj_by (tensor [identity 8; hadamard_transform; identity 2]) (zeros 5)
  <> Ok (zeros 5).
Proof.
  intros H.
  apply (f_equal (rmap (fun A => keqb (entry A 0 0) k1))) in H.
  vm_compute in H. discriminate.
Qed.

(** C7 (the code departs from the claim). Round 1 measures the state rotated
    by the Hadamard on qubit 2, with the POVM lifted to the four qubits.
    Round 2 computes the state rotated by the Hadamard on qubit 3 and then
    measures the unrotated state, with a POVM lifted to four qubits
    (16 x 16) against a state on five (32 x 32): a measurement that echoes
    its argument gets |00000><00000| itself, which the rotation would have
    changed, and the sharp measurement raises. *)
Theorem round2_x_measurement_skips_the_hadamard :
  (forall (Rng : Type) measure_povm (povm0 povm1 rho : Qobj) (r : Rng),
      round2_measure_x Rng measure_povm povm0 povm1 rho r
      = match conj_by (tensor [identity 8; hadamard_transform; identity 2])
                      rho with
        | Ok _ =>
            measure_povm rho
              [tensor [identity 4; povm0; identity 2];
               tensor [identity 4; povm1; identity 2]] r
        | Err e => (Err e, r)
        end)
  /\ round1_measure_x unit echo_measure_povm (projector 0) (projector 1)
       (zeros 4) tt
     = (rmap (pair 0)
          (conj_by (tensor [identity 4; hadamard_transform; identity 2])
                   (zeros 4)), tt)
  /\ round2_measure_x unit echo_measure_povm (projector 0) (projector 1)
       (zeros 5) tt
     = (Ok (0, zeros 5), tt)
  /\ conj_by (tensor [identity 8; hadamard_transform; identity 2]) (zeros 5)
     <> Ok (zeros 5)
  /\ shape (tensor [identity 4; projector 0; identity 2]) = (16, 16)%nat
  /\ shape (zeros 5) = (32, 32)%nat
  /\ fst (round2_measure_x SeededRng sharp_measure_povm (projector 0)
            (projector 1) (zeros 5) rng_low)
     = Err (ValueError DimensionMismatch).
Proof.
  repeat apply conj.
  - intros. apply round2_measure_x_does_not_rotate.
  - rewrite round1_measure_x_rotates.
    destruct (conj_by _ (zeros 4)) eqn:E; [reflexivity | ].
    apply (f_equal is_ok) in E. vm_compute in E. discriminate.
  - rewrite round2_measure_x_does_not_rotate.
    destruct (conj_by _ (zeros 5)) eqn:E; [reflexivity | ].
    apply (f_equal is_ok) in E. vm_compute in E. discriminate.
  - exact hadamard_3_moves_zeros.
  - vm_compute. reflexivity.
  - vm_compute. reflexivity.
  - vm_compute. reflexivity.
Qed.

(** ** bell_dm *)

Lemma zip_firstn {A B : Type} (l : list A) (m : list B) :
  zip (firstn (Nat.min (List.length l) (List.length m)) l)
      (firstn (Nat.min (List.length l) (List.length m)) m)
  = zip l m.
Proof.
  revert m. induction l as [|a l IH]; intros [|b m]; simpl; try reflexivity.
  f_equal. apply IH.
Qed.

Lemma zip_nil_r {A B : Type} (l : list A) : zip l (@nil B) = [].
Proof. destruct l; reflexivity. Qed.

Lemma shape_smul (c : K) (A : Qobj) : shape (smul c A) = shape A.
Proof.
  unfold shape, smul, nrows, ncols. rewrite length_map.
  destruct A as [|r A]; simpl; [reflexivity | now rewrite length_map].
Qed.

Lemma shape_madd (A B : Qobj) :
  same_shape A B = true -> shape (madd A B) = shape A.
Proof.
  unfold same_shape, shape, madd, nrows, ncols. intros H.
  apply andb_true_iff in H as [Hr Hc].
  apply Nat.eqb_eq in Hr. apply Nat.eqb_eq in Hc.
  rewrite length_map, length_combine, <- Hr, Nat.min_id.
  destruct A as [|ra A], B as [|rb B]; simpl in *; try discriminate;
    try reflexivity.
  now rewrite length_map, length_combine, <- Hc, Nat.min_id.
Qed.

Lemma same_shape_of_shape (A B : Qobj) :
  shape A = shape B -> same_shape A B = true.
Proof.
  unfold shape, same_shape. intros H. injection H as Hr Hc.
  rewrite Hr, Hc, !Nat.eqb_refl. reflexivity.
Qed.

(** The projector of a labelled Bell state is a 4 x 4 operator. *)
Lemma bell_projector_shape (label : string) (ket : Qobj) :
  bell_state label = Ok ket ->
  exists P, qmul ket (dag ket) = Ok P /\ shape P = (4, 4)%nat.
Proof.
  unfold bell_state.
  repeat match goal with
         | |- context [String.eqb label ?s] => destruct (String.eqb label s)
         end;
    intros H; try discriminate; injection H as <-;
    (eexists; split; [reflexivity | vm_compute; reflexivity]).
Qed.

Lemma bell_dm_loop_ok (pairs : list (K * Z)) :
  forall acc, acc_ok acc ->
    is_ok (bell_dm_loop acc pairs) = forallb has_label pairs.
Proof.
  induction pairs as [|[elem idx] rest IH]; intros acc Hacc.
  - reflexivity.
  - cbn [bell_dm_loop forallb]. unfold has_label at 1. cbn [snd].
    destruct (bell_state (format_b idx)) as [ket|e] eqn:Hket;
      [ | reflexivity ].
    cbn [rbind is_ok andb].
    destruct (bell_projector_shape _ _ Hket) as [P [HP HshP]].
    rewrite HP. cbn [rbind].
    assert (Hs : shape (smul elem P) = (4, 4)%nat)
      by now rewrite shape_smul.
    destruct acc as [|B]; cbn [py_iadd rbind].
    + apply IH. exact Hs.
    + cbn [acc_ok] in Hacc. unfold qadd.
      rewrite same_shape_of_shape by congruence.
      cbn [rbind]. apply IH. cbn [acc_ok].
      rewrite shape_madd; [exact Hacc | ].
      apply same_shape_of_shape. congruence.
Qed.

Lemma forallb_zip_labels (state : list K) (elem_order : list Z) :
  forallb has_label (zip state elem_order)
  = forallb (fun idx => is_ok (bell_state (format_b idx)))
      (firstn (Nat.min (List.length state) (List.length elem_order))
              elem_order).
Proof.
  revert elem_order.
  induction state as [|a s IH]; intros [|b o]; simpl; try reflexivity.
  unfold has_label at 1. cbn [snd]. f_equal. apply IH.
Qed.

(** C10 (counterexample). [bell_dm] raises on a malformed input: the index 4
    is formatted as the label "100", for which there is no Bell state. *)
Lemma bell_dm_raises_on_unlabelled_index :
  bell_dm [1%K] [4] = Err (ValueError UnknownBellLabel).
Proof. reflexivity. Qed.

(** C10 (as amended). [bell_dm] does not check the lengths of its arguments:
    it iterates over [zip state elem_order], so the entries of the longer
    argument beyond the length of the shorter one are ignored (the result,
    value or exception, is that of the truncated arguments), and when either
    argument is empty it returns the plain integer 0. *)
Theorem bell_dm_ignores_excess_entries (state : list K) (elem_order : list Z) :
  let n := Nat.min (List.length state) (List.length elem_order) in
  bell_dm state elem_order = bell_dm (firstn n state) (firstn n elem_order)
  /\ bell_dm [] elem_order = Ok PyZero
  /\ bell_dm state [] = Ok PyZero.
Proof.
  cbv zeta. repeat apply conj.
  - unfold bell_dm. now rewrite zip_firstn.
  - reflexivity.
  - unfold bell_dm. now rewrite zip_nil_r.
Qed.

(** Under the identity index order the first index, 0, is formatted as the
    label "0", not "00": [bell_dm] raises on [1, 0, 0, 0], [0, 1, 2, 3].  The
    labels "10" and "11" of the indices 2 and 3 are the only ones it can
    reach. *)
Example bell_dm_identity_order_raises :
  bell_dm pure_bds [0; 1; 2; 3] = Err (ValueError UnknownBellLabel)
  /\ rmap (fun v => match v with PyQobj A => meqb A psi_plus | PyZero => false end)
          (bell_dm [1%K; 0%K] [2; 3])
     = Ok true.
Proof. split; vm_compute; reflexivity. Qed.

(** ** No step of the protocols checks a fidelity *)

Lemma nre_ok {A : Type} (a : A) : no_range_error (Ok a).
Proof. discriminate. Qed.

Lemma nre_bind {A B : Type} (c : result A) (k : A -> result B) :
  no_range_error c -> (forall a, no_range_error (k a)) ->
  no_range_error (rbind c k).
Proof.
  intros Hc Hk. destruct c as [a|e]; simpl; [apply Hk | ].
  intros H. apply Hc. congruence.
Qed.

Lemma nre_qmul (A B : Qobj) : no_range_error (qmul A B).
Proof. unfold qmul. destruct (_ =? _)%nat; discriminate. Qed.

Lemma nre_qadd (A B : Qobj) : no_range_error (qadd A B).
Proof. unfold qadd. destruct (same_shape A B); discriminate. Qed.

Lemma nre_ptrace (A : Qobj) (sel : list nat) : no_range_error (ptrace A sel).
Proof.
  unfold ptrace.
  destruct (qubits_of _ _); [ | discriminate ].
  destruct (negb _); [discriminate | ].
  destruct (_ || _); discriminate.
Qed.

Lemma nre_as_qobj (v : pyobj) : no_range_error (as_qobj v).
Proof. destruct v; discriminate. Qed.

Lemma nre_unpack2 (l : list Qobj) : no_range_error (unpack2 l).
Proof. destruct l as [|a [|b [|c l]]]; discriminate. Qed.

Lemma nre_noisy_meas (fid : K) : no_range_error (noisy_meas fid).
Proof. rewrite noisy_meas_entries. discriminate. Qed.

Create HintDb nre discriminated.
#[local] Hint Resolve nre_ok nre_qmul nre_qadd nre_ptrace nre_as_qobj
  nre_unpack2 nre_noisy_meas : nre.

Ltac nre_steps :=
  cbv zeta;
  repeat first
    [ progress auto with nre
    | apply nre_bind; [ | intros ? ] ].

Lemma nre_conj_by (U rho : Qobj) : no_range_error (conj_by U rho).
Proof. unfold conj_by. nre_steps. Qed.
#[local] Hint Resolve nre_conj_by : nre.

Lemma nre_merge_post_cnot (b1 b2 : pyobj) (f : K) :
  no_range_error (merge_post_cnot b1 b2 f).
Proof. unfold merge_post_cnot. nre_steps. Qed.

Lemma nre_merge_correct (res : Z) (post : Qobj) :
  no_range_error (merge_correct res post).
Proof.
  unfold merge_correct. nre_steps.
  - destruct (res =? 1); nre_steps.
  - match goal with |- no_range_error (match ?x with _ => _ end) =>
      destruct x end; discriminate.
Qed.

Lemma nre_plus_dm : no_range_error plus_dm.
Proof. unfold plus_dm. nre_steps. Qed.

Lemma nre_zero_dm : no_range_error zero_dm.
Proof. unfold zero_dm. nre_steps. Qed.

Lemma nre_mix_branches (f : K) (A B C D : Qobj) :
  no_range_error (mix_branches f A B C D).
Proof. unfold mix_branches. nre_steps. Qed.
#[local] Hint Resolve nre_mix_branches : nre.

Lemma nre_round1_post_cnot (p : Qobj) (b : pyobj) (z : Qobj) (f : K) :
  no_range_error (round1_post_cnot p b z f).
Proof. unfold round1_post_cnot. nre_steps. Qed.

Lemma nre_round2_post_cnot (s : Qobj) (b : pyobj) (z : Qobj) (f : K) :
  no_range_error (round2_post_cnot s b z f).
Proof. unfold round2_post_cnot. nre_steps. Qed.

Lemma nre_feedforward (var : string) (x z : Qobj) (ra rb : Z) (post : Qobj) :
  no_range_error (feedforward var x z ra rb post).
Proof.
  unfold feedforward.
  repeat match goal with
         | |- context [if ?b then _ else _] => destruct b
         end; nre_steps; discriminate.
Qed.
#[local] Hint Resolve nre_feedforward : nre.

Lemma nre_round1_correct (res1 res2 : Z) (post : Qobj) :
  no_range_error (round1_correct res1 res2 post).
Proof. unfold round1_correct. nre_steps. Qed.

Lemma nre_round2_correct (res2 res3 : Z) (post : Qobj) :
  no_range_error (round2_correct res2 res3 post).
Proof. unfold round2_correct. nre_steps. Qed.

Section NoRangeCheck.

Variable Rng : Type.
Variable measure_povm : Qobj -> list Qobj -> Rng -> result (Z * Qobj) * Rng.
Hypothesis measure_povm_no_range_error :
  forall rho povms, never_range_error (measure_povm rho povms).

Lemma nvr_lift {A : Type} (c : result A) :
  no_range_error c -> never_range_error (lift (Rng := Rng) c).
Proof. intros H r. exact H. Qed.

Lemma nvr_bind {A B : Type} (c : M Rng A) (k : A -> M Rng B) :
  never_range_error c -> (forall a, never_range_error (k a)) ->
  never_range_error (mbind c k).
Proof.
  intros Hc Hk r. unfold mbind. specialize (Hc r).
  destruct (c r) as [[a|e] r']; cbn [fst] in *.
  - apply Hk.
  - intros H. apply Hc. congruence.
Qed.

Ltac nvr_steps :=
  cbv zeta;
  repeat first
    [ apply measure_povm_no_range_error
    | apply nvr_lift; auto with nre
    | apply nvr_bind; [ | intros ? ]
    | match goal with
      | |- never_range_error (match ?x with (_, _) => _ end) => destruct x
      end ].

Lemma nvr_merge_body (b1 b2 : pyobj) (cnot_fid meas_fid : K) :
  never_range_error (merge_body Rng measure_povm b1 b2 cnot_fid meas_fid).
Proof.
  unfold merge_body. nvr_steps.
  - apply nre_merge_post_cnot.
  - apply nre_merge_correct.
Qed.

Lemma nvr_gate_teleport_body (b1 b2 : pyobj) (cnot_fid meas_fid : K) :
  never_range_error
    (gate_teleport_body Rng measure_povm b1 b2 cnot_fid meas_fid).
Proof.
  unfold gate_teleport_body, round1_measure_z, round1_measure_x,
    round2_measure_z, round2_measure_x.
  nvr_steps;
    first [ apply nre_plus_dm | apply nre_zero_dm
          | apply nre_round1_post_cnot | apply nre_round1_correct
          | apply nre_round2_post_cnot | apply nre_round2_correct ].
Qed.

(** C8 (as amended). No range check on the fidelities exists.  [noisy_meas]
    returns its pair of operators diag(fid, 1 - fid), diag(1 - fid, fid) for
    every [fid], inside [0,1] or not; [merge] and [gate_teleport] never
    raise ParameterOutOfRange; and the statements that follow their calls of
    [bell_dm] raise it for no value of the fidelities either, as long as
    the library's [measure_povm] does not raise it itself. *)
Theorem fidelities_are_not_range_checked
    (state1 state2 : list K) (cnot_fid meas_fid : K) (r : Rng)
    (bell_dm_1 bell_dm_2 : pyobj) :
  noisy_meas meas_fid
    = Ok [ [[meas_fid; 0%K]; [0%K; (1 - meas_fid)%K]];
           [[(1 - meas_fid)%K; 0%K]; [0%K; meas_fid]] ]
  /\ fst (merge Rng measure_povm state1 state2 cnot_fid meas_fid r)
     <> Err (ValueError ParameterOutOfRange)
  /\ fst (gate_teleport Rng measure_povm state1 state2 cnot_fid meas_fid r)
     <> Err (ValueError ParameterOutOfRange)
  /\ fst (merge_body Rng measure_povm bell_dm_1 bell_dm_2 cnot_fid meas_fid r)
     <> Err (ValueError ParameterOutOfRange)
  /\ fst (gate_teleport_body Rng measure_povm bell_dm_1 bell_dm_2 cnot_fid
            meas_fid r)
     <> Err (ValueError ParameterOutOfRange).
Proof.
  repeat apply conj.
  - apply noisy_meas_entries.
  - rewrite merge_raises. discriminate.
  - rewrite gate_teleport_raises. discriminate.
  - apply nvr_merge_body.
  - apply nvr_gate_teleport_body.
Qed.

End NoRangeCheck.

Lemma nre_outcome_probabilities (state : Qobj) (povms : list Qobj) :
  no_range_error (outcome_probabilities state povms).
Proof.
  induction povms as [|E rest IH]; cbn [outcome_probabilities].
  - discriminate.
  - apply nre_bind; [apply nre_qmul | intros t].
    apply nre_bind; [exact IH | intros ps]. discriminate.
Qed.

Lemma sharp_measure_povm_no_range_error (rho : Qobj) (povms : list Qobj) :
  never_range_error (sharp_measure_povm rho povms).
Proof.
  intros r. unfold sharp_measure_povm.
  pose proof (nre_outcome_probabilities rho povms) as H.
  destruct (outcome_probabilities rho povms) as [cands|e]; cbn [fst].
  - cbn [next_uniform].
    destruct (pick_outcome _ _ _ cands) as [[[k p] E]|]; cbn [fst].
    + apply nre_bind; [apply nre_conj_by | intros c; discriminate].
    + discriminate.
  - intros H'. apply H. congruence.
Qed.

(** The theorem above at cnot_fid = meas_fid = 2, for the sharp measurement
    and two Phi+ operators. *)
Lemma fidelities_are_not_range_checked_witness :
  (forall rho povms, never_range_error (sharp_measure_povm rho povms))
  /\ noisy_meas two
     = Ok [ [[two; 0%K]; [0%K; (1 - two)%K]];
            [[(1 - two)%K; 0%K]; [0%K; two]] ]
  /\ fst (merge SeededRng sharp_measure_povm pure_bds pure_bds two two rng_low)
     <> Err (ValueError ParameterOutOfRange)
  /\ fst (gate_teleport SeededRng sharp_measure_povm pure_bds pure_bds two two
            rng_low)
     <> Err (ValueError ParameterOutOfRange)
  /\ fst (merge_body SeededRng sharp_measure_povm (PyQobj phi_plus)
            (PyQobj phi_plus) two two rng_low)
     <> Err (ValueError ParameterOutOfRange)
  /\ fst (gate_teleport_body SeededRng sharp_measure_povm (PyQobj phi_plus)
            (PyQobj phi_plus) two two rng_low)
     <> Err (ValueError ParameterOutOfRange).
Proof.
  split.
  - exact sharp_measure_povm_no_range_error.
  - exact (fidelities_are_not_range_checked SeededRng sharp_measure_povm
             sharp_measure_povm_no_range_error pure_bds pure_bds two two
             rng_low (PyQobj phi_plus) (PyQobj phi_plus)).
Defined.

(** * Further properties of the program *)

Lemma bell_state_ok_length (label : string) :
  is_ok (bell_state label) = true -> String.length label = 2%nat.
Proof.
  unfold bell_state.
  repeat match goal with
         | |- context [String.eqb label ?s] =>
             destruct (String.eqb_spec label s) as [->|_]; [reflexivity | ]
         end.
  discriminate.
Qed.

Lemma length_append (s t : string) :
  String.length (s ++ t) = (String.length s + String.length t)%nat.
Proof. induction s; simpl; congruence. Qed.

Lemma pos_bin_length (p : positive) : (1 <= String.length (pos_bin p))%nat.
Proof.
  induction p; simpl; rewrite ?length_append; simpl; lia.
Qed.

Lemma index_has_label (idx : Z) :
  is_ok (bell_state (format_b idx)) = ((idx =? 2) || (idx =? 3)).
Proof.
  destruct idx as [|p|p].
  - reflexivity.
  - destruct p as [[q|q|]|[q|q|]|]; try reflexivity;
      (destruct (is_ok (bell_state (format_b _))) eqn:E; [ | reflexivity ];
       apply bell_state_ok_length in E; simpl in E;
       rewrite !length_append in E; simpl in E;
       pose proof (pos_bin_length q); lia).
  - reflexivity.
Qed.

(** X2. [bell_dm] returns without raising exactly when every paired index
    (those of [elem_order] up to the length of the shorter argument) is 2
    or 3: [format(idx, 'b')] gives a two-bit label only for these two. *)
Theorem bell_dm_returns_iff_indices_2_3 (state : list K) (elem_order : list Z) :
  is_ok (bell_dm state elem_order)
  = forallb is_psi_index
      (firstn (Nat.min (List.length state) (List.length elem_order))
              elem_order).
Proof.
  unfold bell_dm. rewrite bell_dm_loop_ok by exact I.
  rewrite forallb_zip_labels.
  generalize (firstn (Nat.min (List.length state) (List.length elem_order))
                      elem_order).
  intros l. induction l as [|idx l IH]; simpl; [reflexivity | ].
  now rewrite index_has_label, IH.
Qed.

Lemma bell_dm_step (acc : pyobj) (elem : K) (idx : Z) (rest : list (K * Z)) :
  bell_dm_loop acc ((elem, idx) :: rest)
  = (P <- (ket <- bell_state (format_b idx) ;;
           ket' <- bell_state (format_b idx) ;; qmul ket (dag ket')) ;;
     acc' <- py_iadd acc (smul elem P) ;;
     bell_dm_loop acc' rest).
Proof.
  cbn [bell_dm_loop].
  destruct (bell_state (format_b idx)); cbn [rbind]; [ | reflexivity ].
  destruct (qmul _ _); reflexivity.
Qed.

Ltac m_ring' := cbv -[kadd kmul ksub kopp k0 k1 kinv half two]; entrywise; ring.

Lemma psi_projector (idx : Z) :
  is_psi_index idx = true ->
  exists c d,
    (ket <- bell_state (format_b idx) ;;
     ket' <- bell_state (format_b idx) ;; qmul ket (dag ket'))
    = Ok (psi_block c d).
Proof.
  unfold is_psi_index. intros H. apply orb_true_iff in H.
  destruct H as [H|H]; apply Z.eqb_eq in H; subst idx.
  - exists half, half. vm_compute. apply f_equal. m_compute.
  - exists half, (kopp half). vm_compute. apply f_equal. m_compute.
Qed.

Lemma psi_block_add (a b e c d : K) :
  madd (psi_block a b) (smul e (psi_block c d))
  = psi_block (a + e * c) (b + e * d).
Proof. m_ring'. Qed.

Lemma psi_block_scale (e c d : K) :
  smul e (psi_block c d) = psi_block (e * c) (e * d).
Proof. m_ring'. Qed.

Lemma bell_dm_loop_block (pairs : list (K * Z)) :
  forall a b,
    forallb (fun p => is_psi_index (snd p)) pairs = true ->
    exists a' b',
      bell_dm_loop (PyQobj (psi_block a b)) pairs
      = Ok (PyQobj (psi_block a' b')).
Proof.
  induction pairs as [|[e idx] rest IH]; intros a b H.
  - exists a, b. reflexivity.
  - cbn [forallb snd] in H. apply andb_true_iff in H as [Hi Hrest].
    rewrite bell_dm_step.
    destruct (psi_projector idx Hi) as (c & d & ->).
    cbn [rbind py_iadd]. unfold qadd.
    replace (same_shape _ _) with true by reflexivity.
    cbn [rbind]. rewrite psi_block_add. now apply IH.
Qed.

(** X3. When at least one pair exists and every paired index is 2 or 3,
    [bell_dm] returns a 4 x 4 operator that vanishes outside the block of
    |01> and |10>, is symmetric, and has the same value in both diagonal
    entries of that block.  The entries that are equal are accumulated by
    the same operations, and the others are sums of products by 0. *)
Theorem bell_dm_on_psi_indices_is_block
    (state : list K) (elem_order : list Z) :
  let pairs := zip state elem_order in
  pairs <> [] ->
  forallb (fun p => is_psi_index (snd p)) pairs = true ->
  exists a b, bell_dm state elem_order = Ok (PyQobj (psi_block a b)).
Proof.
  cbv zeta. unfold bell_dm.
  destruct (zip state elem_order) as [|[e idx] rest]; [congruence | ].
  intros _ H. cbn [forallb snd] in H. apply andb_true_iff in H as [Hi Hrest].
  rewrite bell_dm_step. destruct (psi_projector idx Hi) as (c & d & ->).
  cbn [rbind py_iadd]. rewrite psi_block_scale. now apply bell_dm_loop_block.
Qed.

(** X4. The two operators of [noisy_meas fid] are symmetric, they commute,
    and each is the other conjugated by [sigmax]: the two outcomes are
    mirror images under a bit flip.  Each equality compares entries that
    come from the same operations, up to products by 0 and 1, sums with 0
    and the order of the two factors of a product. *)
Theorem noisy_meas_operators_mirror (fid : K) :
  exists povm_0 povm_1,
    noisy_meas fid = Ok [povm_0; povm_1]
    /\ conj_by sigmax povm_0 = Ok povm_1
    /\ conj_by sigmax povm_1 = Ok povm_0
    /\ qmul povm_0 povm_1 = qmul povm_1 povm_0
    /\ dag povm_0 = povm_0 /\ dag povm_1 = povm_1.
Proof.
  do 2 eexists. split; [apply noisy_meas_entries | ].
  repeat apply conj; try reflexivity;
    cbv -[kadd kmul ksub kopp k0 k1 kdiv]; entrywise; ring.
Qed.

Lemma merge_povms_complete (fid : K) :
  (povms <- noisy_meas fid ;;
   p <- unpack2 povms ;;
   povm_total (merge_povms (fst p) (snd p)))
  = Ok (identity 16).
Proof.
  rewrite noisy_meas_entries. cbn [rbind unpack2 fst snd].
  cbv -[kadd kmul ksub kopp k0 k1 kdiv]; entrywise; ring.
Qed.

Lemma lift_1_of_4 (fid : K) :
  qadd (tensor [identity 2; [[fid; 0%K]; [0%K; (1 - fid)%K]]; identity 4])
       (tensor [identity 2; [[(1 - fid)%K; 0%K]; [0%K; fid]]; identity 4])
  = Ok (identity 16).
Proof. m_ring. Qed.

Lemma lift_2_of_4 (fid : K) :
  qadd (tensor [identity 4; [[fid; 0%K]; [0%K; (1 - fid)%K]]; identity 2])
       (tensor [identity 4; [[(1 - fid)%K; 0%K]; [0%K; fid]]; identity 2])
  = Ok (identity 16).
Proof. m_ring. Qed.

Lemma lift_2_of_5 (fid : K) :
  qadd (tensor [identity 4; [[fid; 0%K]; [0%K; (1 - fid)%K]]; identity 4])
       (tensor [identity 4; [[(1 - fid)%K; 0%K]; [0%K; fid]]; identity 4])
  = Ok (identity 32).
Proof. m_ring. Qed.

(** X5. For every [fid], the POVM handed to [measure_povm] sums to the
    identity on 4 qubits in [merge] and in both measurements of round 1, and
    to the identity on 5 qubits in the Z-basis measurement of round 2; the
    POVM of the X-basis measurement of round 2 sums to the identity on 4
    qubits, one fewer than its state has. *)
Theorem lifted_povms_are_complete (fid : K) (state : Qobj) :
  exists povm0 povm1,
    noisy_meas fid = Ok [povm0; povm1]
    /\ povm_total (merge_povms povm0 povm1) = Ok (identity 16)
    /\ round1_measure_z unit total_measure_povm povm0 povm1 state tt
       = (Ok (0, identity 16), tt)
    /\ round2_measure_z unit total_measure_povm povm0 povm1 state tt
       = (Ok (0, identity 32), tt)
    /\ round1_measure_x unit total_measure_povm povm0 povm1 state tt
       = match conj_by (tensor [identity 4; hadamard_transform; identity 2])
                       state with
         | Ok _ => (Ok (0, identity 16), tt)
         | Err e => (Err e, tt)
         end
    /\ round2_measure_x unit total_measure_povm povm0 povm1 state tt
       = match conj_by (tensor [identity 8; hadamard_transform; identity 2])
                       state with
         | Ok _ => (Ok (0, identity 16), tt)
         | Err e => (Err e, tt)
         end.
Proof.
  do 2 eexists. split; [apply noisy_meas_entries | ].
  repeat apply conj.
  - unfold merge_povms, povm_total. cbn [fold_left rbind].
    apply lift_1_of_4.
  - unfold round1_measure_z, total_measure_povm, povm_total.
    cbn [fold_left rbind]. now rewrite lift_1_of_4.
  - unfold round2_measure_z, total_measure_povm, povm_total.
    cbn [fold_left rbind]. now rewrite lift_2_of_5.
  - rewrite round1_measure_x_rotates.
    destruct (conj_by _ state); [ | reflexivity ].
    unfold total_measure_povm, povm_total.
    cbn [fold_left rbind]. now rewrite lift_2_of_4.
  - rewrite round2_measure_x_does_not_rotate.
    destruct (conj_by _ state); [ | reflexivity ].
    unfold total_measure_povm, povm_total.
    cbn [fold_left rbind]. now rewrite lift_2_of_4.
Qed.

Lemma ptrace_4_qubits (post : Qobj) (sel : list nat) :
  shape post = (16, 16)%nat ->
  forallb (fun q => q <? 4)%nat sel = true -> has_dup sel = false ->
  is_ok (ptrace post sel) = true.
Proof.
  unfold shape. intros H Hsel Hdup. injection H as Hr Hc.
  unfold ptrace. rewrite Hr, Hc. cbn [qubits_of Nat.eqb Nat.even Nat.div2 option_map negb].
  rewrite Hsel, Hdup. reflexivity.
Qed.

(** X7. On every 16 x 16 post-measurement state, lines 90-99 return the
    state itself for outcome 0, raise for outcome 1 (the 8 x 8 [x_gate] does
    not multiply a 16 x 16 state), and raise UnboundLocalError for any other
    outcome. *)
Theorem merge_correct_on_four_qubits (res : Z) (post_meas_state : Qobj) :
  shape post_meas_state = (16, 16)%nat ->
  merge_correct res post_meas_state
  = if res =? 0 then Ok post_meas_state
    else if res =? 1 then Err (ValueError DimensionMismatch)
    else Err (UnboundLocalError "ghz_state").
Proof.
  intros H. unfold merge_correct.
  pose proof (ptrace_4_qubits post_meas_state [0; 1; 2]%nat H
                eq_refl eq_refl) as Hp.
  destruct (ptrace post_meas_state [0; 1; 2]%nat); [ | discriminate ].
  cbn [rbind]. cbv zeta.
  destruct (res =? 1) eqn:E1.
  - apply Z.eqb_eq in E1. subst res. cbn [Z.eqb].
    unfold conj_by, qmul at 1.
    replace (ncols (tensor [sigmax; identity 4])) with 8%nat by reflexivity.
    unfold shape in H. injection H as Hr Hc. rewrite Hr. reflexivity.
  - destruct (res =? 0); reflexivity.
Qed.

Lemma swap_product_undefined :
  qmul (tensor [swap; identity 8]) (tensor [identity 2; swap; identity 2])
  = Err (ValueError DimensionMismatch).
Proof. vm_compute. reflexivity. Qed.

Lemma round2_post_cnot_raises (final_state : Qobj) (bell_dm_2 : pyobj)
    (zero_dm : Qobj) (cnot_fid : K) :
  is_ok (round2_post_cnot final_state bell_dm_2 zero_dm cnot_fid) = false.
Proof.
  unfold round2_post_cnot. cbv zeta.
  repeat match goal with
         | |- is_ok (rbind (qmul (tensor [swap; identity 8]) _) _) = false =>
             rewrite swap_product_undefined; reflexivity
         | |- is_ok (rbind ?c _) = false =>
             destruct c; cbn [rbind is_ok]; [ | reflexivity ]
         end.
Qed.

Section NeverReturns.
Variable Rng : Type.
Variable measure_povm : Qobj -> list Qobj -> Rng -> result (Z * Qobj) * Rng.

(** X8. Whatever [measure_povm] does and whatever the two Bell operators
    and fidelities are, lines 124-233 of [gate_teleport] never return: when
    round 1 succeeds, round 2 raises at line 194. *)
Theorem gate_teleport_body_never_returns
    (bell_dm_1 bell_dm_2 : pyobj) (cnot_fid meas_fid : K) (r : Rng) :
  is_ok (fst (gate_teleport_body Rng measure_povm bell_dm_1 bell_dm_2
                cnot_fid meas_fid r)) = false.
Proof.
  unfold gate_teleport_body, mbind, lift.
  rewrite noisy_meas_entries. cbn [unpack2].
  destruct plus_dm as [p|]; [ | reflexivity ].
  destruct zero_dm as [z|]; [ | reflexivity ].
  destruct (round1_post_cnot p bell_dm_1 z cnot_fid) as [s1|];
    [ | reflexivity ].
  destruct (round1_measure_z _ _ _ _ _ _) as [[[res1 post1]|] r1];
    [ | reflexivity ].
  destruct (round1_measure_x _ _ _ _ _ _) as [[[res2 post2]|] r2];
    [ | reflexivity ].
  destruct (round1_correct res1 res2 post2) as [final|]; [ | reflexivity ].
  pose proof (round2_post_cnot_raises final bell_dm_2 z cnot_fid) as H.
  destruct (round2_post_cnot final bell_dm_2 z cnot_fid); [discriminate | ].
  reflexivity.
Qed.
End NeverReturns.

(** ** The shapes of the operators of [merge] and of the first round

    The statements of this part are about dimensions and exceptions; they
    do not depend on the values of the entries. *)

Lemma square_spec (n : nat) (A : Qobj) :
  square n A = true ->
  List.length A = n /\ forall i, (i < n)%nat -> List.length (nth i A []) = n.
Proof.
  unfold square, nrows. intros H. apply andb_true_iff in H as [Hr Hc].
  apply Nat.eqb_eq in Hr. split; [exact Hr | ].
  intros i Hi. rewrite forallb_forall in Hc.
  apply Nat.eqb_eq, Hc, nth_In. lia.
Qed.

Lemma square_intro (n : nat) (A : Qobj) :
  List.length A = n ->
  (forall r, In r A -> List.length r = n) ->
  square n A = true.
Proof.
  intros Hr Hc. unfold square, nrows. apply andb_true_iff. split.
  - now apply Nat.eqb_eq.
  - apply forallb_forall. intros r Hin. apply Nat.eqb_eq. now apply Hc.
Qed.

Lemma square_rows (n : nat) (A : Qobj) :
  square n A = true -> forall r, In r A -> List.length r = n.
Proof.
  unfold square. intros H r Hin. apply andb_true_iff in H as [_ Hc].
  rewrite forallb_forall in Hc. now apply Nat.eqb_eq, Hc.
Qed.

Lemma square_shape (n : nat) (A : Qobj) :
  square n A = true -> shape A = (n, n).
Proof.
  intros H. pose proof (square_spec n A H) as [Hr Hc].
  unfold shape, nrows, ncols. rewrite Hr. f_equal.
  destruct A as [|r A]; cbn [hd List.length] in *; [exact Hr | ].
  apply (square_rows _ _ H). now left.
Qed.

Lemma square_smul (n : nat) (c : K) (A : Qobj) :
  square n A = true -> square n (smul c A) = true.
Proof.
  intros H. pose proof (square_spec n A H) as [Hr _].
  apply square_intro.
  - unfold smul. now rewrite length_map.
  - intros r Hin. unfold smul in Hin. apply in_map_iff in Hin as [r' [<- Hin]].
    rewrite length_map. now apply (square_rows _ _ H).
Qed.

Lemma square_madd (n : nat) (A B : Qobj) :
  square n A = true -> square n B = true -> square n (madd A B) = true.
Proof.
  intros HA HB.
  pose proof (square_spec n A HA) as [HrA _].
  pose proof (square_spec n B HB) as [HrB _].
  apply square_intro.
  - unfold madd. rewrite length_map, length_combine. lia.
  - intros r Hin. unfold madd in Hin.
    apply in_map_iff in Hin as [[ra rb] [<- Hin]].
    cbn [fst snd]. rewrite length_map, length_combine.
    pose proof (in_combine_l _ _ _ _ Hin) as Ha.
    pose proof (in_combine_r _ _ _ _ Hin) as Hb.
    rewrite (square_rows _ _ HA _ Ha), (square_rows _ _ HB _ Hb). lia.
Qed.


Lemma square_mmul (n : nat) (A B : Qobj) :
  square n A = true -> square n B = true -> square n (mmul A B) = true.
Proof.
  intros HA HB.
  pose proof (square_spec n A HA) as [HrA _].
  pose proof (square_shape n B HB) as HsB. unfold shape in HsB.
  injection HsB as _ HncB.
  apply square_intro.
  - unfold mmul. now rewrite length_map.
  - intros r Hin. unfold mmul in Hin.
    apply in_map_iff in Hin as [r' [<- _]].
    now rewrite length_map, length_seq.
Qed.

Lemma square_dag (n : nat) (A : Qobj) :
  square n A = true -> square n (dag A) = true.
Proof.
  intros HA.
  pose proof (square_spec n A HA) as [HrA _].
  pose proof (square_shape n A HA) as HsA. unfold shape in HsA.
  injection HsA as _ HncA.
  apply square_intro.
  - unfold dag. now rewrite length_map, length_seq.
  - intros r Hin. unfold dag in Hin.
    apply in_map_iff in Hin as [j [<- _]].
    unfold column. now rewrite length_map.
Qed.

Lemma qmul_square (n : nat) (A B : Qobj) :
  square n A = true -> square n B = true -> qmul A B = Ok (mmul A B).
Proof.
  intros HA HB. unfold qmul.
  pose proof (square_shape n A HA) as HsA.
  pose proof (square_shape n B HB) as HsB.
  unfold shape in *. injection HsA as _ ->. injection HsB as -> _.
  now rewrite Nat.eqb_refl.
Qed.



Lemma square_sdiv (n : nat) (A : Qobj) (c : K) :
  square n A = true -> square n (sdiv A c) = true.
Proof.
  intros H. pose proof (square_spec n A H) as [Hr _].
  apply square_intro.
  - unfold sdiv. now rewrite length_map.
  - intros r Hin. unfold sdiv in Hin. apply in_map_iff in Hin as [r' [<- Hin]].
    rewrite length_map. now apply (square_rows _ _ H).
Qed.



Lemma ptrace_pair_of_16 (X : Qobj) (sel : list nat) :
  square 16 X = true ->
  sel = [0; 1]%nat \/ sel = [2; 3]%nat \/ sel = [0; 3]%nat ->
  exists r, ptrace X sel = Ok r /\ square 4 r = true.
Proof.
  intros H Hsel.
  pose proof (square_shape 16 X H) as Hs. unfold shape in Hs.
  injection Hs as Hr Hc.
  unfold ptrace. rewrite Hr, Hc.
  set (eX := entry X). clearbody eX.
  destruct Hsel as [-> | [-> | ->]];
    (eexists; split; reflexivity).
Qed.

Lemma conj_by_square (n : nat) (U rho : Qobj) :
  square n U = true -> square n rho = true ->
  conj_by U rho = Ok (mmul (mmul U rho) (dag U))
  /\ square n (mmul (mmul U rho) (dag U)) = true.
Proof.
  intros HU Hr.
  pose proof (square_dag n U HU) as HUd.
  pose proof (square_mmul n U rho HU Hr) as HUr.
  unfold conj_by.
  rewrite (qmul_square n U rho) by assumption. cbn [rbind].
  rewrite (qmul_square n _ (dag U)) by assumption.
  split; [reflexivity | now apply square_mmul].
Qed.


Ltac squares :=
  repeat first [ assumption
               | apply square_madd | apply square_mmul | apply square_smul
               | apply square_sdiv | apply square_dag ].




Lemma double_conj_square (n : nat) (Z X rho : Qobj) :
  square n Z = true -> square n X = true -> square n rho = true ->
  exists r,
    (zx <- qmul Z X ;; t <- qmul zx rho ;; t' <- qmul t (dag X) ;;
     qmul t' (dag Z)) = Ok r
    /\ square n r = true.
Proof.
  intros HZ HX Hr.
  rewrite (qmul_square n Z X) by assumption. cbn [rbind].
  rewrite (qmul_square n _ rho) by squares. cbn [rbind].
  rewrite (qmul_square n _ (dag X)) by squares. cbn [rbind].
  rewrite (qmul_square n _ (dag Z)) by squares.
  eexists. split; [reflexivity | squares].
Qed.

(** X11. On every 16 x 16 state, lines 163-176 return a 4 x 4 operator for
    each of the four outcome pairs in {0,1}^2, and raise UnboundLocalError
    for any other pair of outcomes. *)
Theorem round1_correct_outcomes (res1 res2 : Z) (post_meas2_state : Qobj) :
  square 16 post_meas2_state = true ->
  if ((res1 =? 0) || (res1 =? 1)) && ((res2 =? 0) || (res2 =? 1)) then
    exists final_state,
      round1_correct res1 res2 post_meas2_state = Ok final_state
      /\ square 4 final_state = true
  else
    round1_correct res1 res2 post_meas2_state
    = Err (UnboundLocalError "final_state").
Proof.
  intros H.
  destruct (ptrace_pair_of_16 _ [0; 3]%nat H (or_intror (or_intror eq_refl)))
    as (r & Hr & Hsr).
  unfold round1_correct. rewrite Hr. cbn [rbind]. cbv zeta.
  set (x_gate := tensor [identity 2; sigmax]).
  set (z_gate := tensor [sigmaz; identity 2]).
  assert (HX : square 4 x_gate = true) by reflexivity.
  assert (HZ : square 4 z_gate = true) by reflexivity.
  destruct (conj_by_square 4 _ r HX Hsr) as (Hcx & Hsx).
  destruct (conj_by_square 4 _ r HZ Hsr) as (Hcz & Hsz).
  destruct (double_conj_square 4 _ _ r HZ HX Hsr) as (rzx & Hczx & Hszx).
  unfold feedforward.
  destruct (res1 =? 0) eqn:E10, (res1 =? 1) eqn:E11,
           (res2 =? 0) eqn:E20, (res2 =? 1) eqn:E21;
    cbn [andb orb];
    try (apply Z.eqb_eq in E10; apply Z.eqb_eq in E11; lia);
    try (apply Z.eqb_eq in E20; apply Z.eqb_eq in E21; lia);
    try reflexivity;
    eexists;
    (split; [first [reflexivity | exact Hcx | exact Hcz | exact Hczx]
            | assumption]).
Qed.

(** * The ring set-up of mpi_tests/sequential_ring.py *)

(** ** The ring set-up *)

Lemma for_each_flat_map {A B : Type} (l : list A) (body : A -> option (list B))
    (g : A -> list B) :
  (forall x, In x l -> body x = Some (g x)) ->
  for_each l body = Some (flat_map g l).
Proof.
  induction l as [|x l IH]; intros H; [reflexivity | ].
  cbn [for_each flat_map].
  rewrite (H x (or_introl eq_refl)). cbn [obind].
  rewrite IH by (intros y Hy; apply H; now right). reflexivity.
Qed.

Lemma in_py_range (n i : Z) : In i (py_range n) <-> 0 <= i < n.
Proof.
  unfold py_range. rewrite in_map_iff. split.
  - intros (k & <- & Hk). apply in_seq in Hk. lia.
  - intros H. exists (Z.to_nat i). split; [lia | ]. apply in_seq. lia.
Qed.

Lemma NoDup_map_inj {A B : Type} (f : A -> B) (l : list A) :
  (forall a b, In a l -> In b l -> f a = f b -> a = b) ->
  NoDup l -> NoDup (map f l).
Proof.
  intros Hf H. induction H as [|x l Hx H IH]; cbn [map]; constructor.
  - rewrite in_map_iff. intros (y & E & Hy).
    apply Hf in E; [ | now right | now left ]. now subst y.
  - apply IH. intros a b Ha Hb. apply Hf; now right.
Qed.

Lemma NoDup_py_range (n : Z) : NoDup (py_range n).
Proof.
  unfold py_range. apply NoDup_map_inj; [ | apply seq_NoDup ].
  intros a b _ _ H. lia.
Qed.

Lemma length_py_range (n : Z) : List.length (py_range n) = Z.to_nat n.
Proof. unfold py_range. now rewrite length_map, length_seq. Qed.

Lemma py_mod_nonzero (a b : Z) : b <> 0 -> py_mod a b = Some (a mod b).
Proof.
  intros H. unfold py_mod. destruct (Z.eqb_spec b 0); [contradiction | ].
  reflexivity.
Qed.

Lemma succ_mod (N n : Z) :
  0 <= n < N -> (n + 1) mod N = if n + 1 =? N then 0 else n + 1.
Proof.
  intros H. destruct (Z.eqb_spec (n + 1) N) as [E|E].
  - rewrite E. apply Z.mod_same. lia.
  - apply Z.mod_small. lia.
Qed.

Lemma pred_mod (N n : Z) :
  0 <= n < N -> (n - 1) mod N = if n =? 0 then N - 1 else n - 1.
Proof.
  intros H. destruct (Z.eqb_spec n 0) as [E|E].
  - subst n. symmetry. apply (Z.mod_unique_pos _ _ (-1)); lia.
  - apply Z.mod_small. lia.
Qed.

(** *** Names and their indices *)

Lemma uint_chars_not_N (d : Decimal.uint) :
  all_chars not_N (DecimalString.NilEmpty.string_of_uint d) = true.
Proof. induction d; cbn; auto. Qed.

Lemma format_d_not_N (i : Z) : all_chars not_N (format_d i) = true.
Proof.
  unfold format_d.
  destruct (Z.to_int i) as [d|d]; cbn [DecimalString.NilZero.string_of_int].
  - destruct d; try reflexivity; apply (uint_chars_not_N (_ d)).
  - cbn [all_chars]. destruct d; try reflexivity;
      apply (uint_chars_not_N (_ d)).
Qed.

Lemma replace_scan_no_N (s : string) :
  all_chars not_N s = true -> replace_scan "Node_" "" s 0 = s.
Proof.
  induction s as [|c s IH]; intros H; [reflexivity | ].
  cbn [all_chars] in H. apply andb_true_iff in H as [Hc Hs].
  cbn [replace_scan String.prefix].
  destruct (Ascii.ascii_dec _ c) as [<-|_]; [discriminate Hc | ].
  now rewrite IH.
Qed.

Lemma prefix_empty (s : string) : String.prefix "" s = true.
Proof. now destruct s. Qed.

Lemma py_replace_node_name (i : Z) :
  py_replace (node_name i) "Node_" "" = format_d i.
Proof.
  unfold node_name. cbn. rewrite prefix_empty.
  apply replace_scan_no_N, format_d_not_N.
Qed.

Lemma decimal_int_format_d (i : Z) : decimal_int (format_d i) = Some i.
Proof.
  unfold decimal_int, format_d.
  rewrite DecimalString.NilZero.isi.
  - cbn [option_map]. now rewrite DecimalZ.of_to.
  - destruct i; cbn; try discriminate.
    intros H. injection H as H.
    now apply DecimalPos.Unsigned.to_uint_nonnil in H.
  - destruct i; cbn; try discriminate.
    intros H. injection H as H.
    now apply DecimalPos.Unsigned.to_uint_nonnil in H.
Qed.

Lemma format_d_inj (i j : Z) : format_d i = format_d j -> i = j.
Proof.
  intros H. apply (f_equal decimal_int) in H.
  rewrite !decimal_int_format_d in H. congruence.
Qed.

Lemma append_inj_r (p s t : string) : (p ++ s = p ++ t)%string -> s = t.
Proof. induction p; cbn; intros H; [exact H | ]. injection H. auto. Qed.

Lemma node_name_inj (i j : Z) : node_name i = node_name j -> i = j.
Proof. intros H. now apply format_d_inj, (append_inj_r "Node_"). Qed.

Lemma bsm_name_inj (i j : Z) : bsm_name i = bsm_name j -> i = j.
Proof. intros H. now apply format_d_inj, (append_inj_r "BSM_"). Qed.

Lemma node_name_not_bsm (i j : Z) : node_name i <> bsm_name j.
Proof. discriminate. Qed.

Lemma node_name_eqb (i j : Z) :
  String.eqb (node_name i) (node_name j) = (i =? j).
Proof.
  destruct (Z.eqb_spec i j) as [->|H].
  - apply String.eqb_refl.
  - apply String.eqb_neq. intros E. now apply node_name_inj in E.
Qed.

Lemma bsm_name_eqb (i j : Z) :
  String.eqb (bsm_name i) (bsm_name j) = (i =? j).
Proof.
  destruct (Z.eqb_spec i j) as [->|H].
  - apply String.eqb_refl.
  - apply String.eqb_neq. intros E. now apply bsm_name_inj in E.
Qed.

(** *** The next hop of lines 83-94 *)

Lemma next_hop_name (N n d : Z) :
  N <> 0 -> next_hop N n d = Some (node_name (hop_index N n d)).
Proof.
  intros HN. unfold next_hop, hop_index.
  destruct (_ <? _), (d >? n); rewrite py_mod_nonzero by exact HN;
    reflexivity.
Qed.

Lemma hop_index_closer (N n d : Z) :
  0 <= n < N -> 0 <= d < N -> n <> d ->
  0 <= hop_index N n d < N
  /\ ring_dist N (hop_index N n d) n = 1
  /\ ring_dist N (hop_index N n d) d = ring_dist N n d - 1.
Proof.
  intros Hn Hd Hne. unfold hop_index, ring_dist.
  rewrite succ_mod, pred_mod by exact Hn.
  destruct (Z.ltb_spec (Z.abs (n - d)) (N - Z.abs (n - d)));
    destruct (Z.gtb_spec d n);
    destruct (Z.eqb_spec (n + 1) N); destruct (Z.eqb_spec n 0); lia.
Qed.

Lemma ring_dist_zero (N a b : Z) :
  0 <= a < N -> 0 <= b < N -> (ring_dist N a b = 0 <-> a = b).
Proof. unfold ring_dist. lia. Qed.

Lemma walk_dist (N d : Z) (k : nat) :
  0 <= d < N ->
  forall n, 0 <= n < N -> Z.of_nat k <= ring_dist N n d ->
  0 <= walk N k n d < N
  /\ ring_dist N (walk N k n d) d = ring_dist N n d - Z.of_nat k.
Proof.
  intros Hd. induction k as [|k IH]; intros n Hn Hk; cbn [walk].
  - split; [exact Hn | lia].
  - assert (Hne : n <> d).
    { intros E. apply (ring_dist_zero N n d Hn Hd) in E. lia. }
    destruct (hop_index_closer N n d Hn Hd Hne) as (Hr & _ & Hc).
    destruct (IH (hop_index N n d) Hr ltac:(lia)) as [Hw Hdist].
    split; [exact Hw | ]. rewrite Hdist, Hc. lia.
Qed.

(** X15. For two distinct positions of the ring, the next hop that lines
    83-94 choose is a position of the ring, adjacent to the router (ring
    distance 1), and one step nearer to the destination than the router
    is. *)
Theorem next_hop_is_one_step_closer (ring_size node_index dst_index : Z) :
  in_ring ring_size node_index -> in_ring ring_size dst_index ->
  node_index <> dst_index ->
  exists hop,
    next_hop ring_size node_index dst_index = Some (node_name hop)
    /\ in_ring ring_size hop
    /\ ring_dist ring_size hop node_index = 1
    /\ ring_dist ring_size hop dst_index
       = ring_dist ring_size node_index dst_index - 1.
Proof.
  unfold in_ring. intros Hn Hd Hne.
  exists (hop_index ring_size node_index dst_index).
  split; [apply next_hop_name; lia | ].
  now apply hop_index_closer.
Qed.

Lemma in_routers (N : Z) (node : QuantumRouter) :
  In node (routers N)
  <-> exists i, 0 <= i < N /\ node = mkRouter (node_name i) i.
Proof.
  unfold routers. rewrite in_map_iff. split.
  - intros (i & <- & Hi). exists i. now rewrite <- in_py_range.
  - intros (i & Hi & ->). exists i. now rewrite in_py_range.
Qed.

Lemma in_router_names (N : Z) (name : string) :
  In name (router_names N) <-> exists i, 0 <= i < N /\ name = node_name i.
Proof.
  unfold router_names. rewrite in_map_iff. split.
  - intros (i & <- & Hi). exists i. now rewrite <- in_py_range.
  - intros (i & Hi & ->). exists i. now rewrite in_py_range.
Qed.

Lemma NoDup_router_names (N : Z) : NoDup (router_names N).
Proof.
  apply NoDup_map_inj; [ | apply NoDup_py_range ].
  intros a b _ _. apply node_name_inj.
Qed.

Lemma for_each_map {A B C : Type} (f : A -> B) (l : list A)
    (body : B -> option (list C)) (g : A -> list C) :
  (forall x, In x l -> body (f x) = Some (g x)) ->
  for_each (map f l) body = Some (flat_map g l).
Proof.
  induction l as [|x l IH]; intros H; [reflexivity | ].
  cbn [map for_each flat_map].
  rewrite (H x (or_introl eq_refl)). cbn [obind].
  rewrite IH by (intros y Hy; apply H; now right). reflexivity.
Qed.

Lemma length_flat_map_absent {A : Type} (f : Z -> A) (n : Z) (l : list Z) :
  ~ In n l ->
  List.length (flat_map (fun d => if n =? d then [] else [f d]) l)
  = List.length l.
Proof.
  induction l as [|y l IH]; intros Hn; [reflexivity | ].
  cbn [flat_map List.length]. rewrite length_app.
  destruct (Z.eqb_spec n y) as [->|_]; [exfalso; apply Hn; now left | ].
  cbn [List.length]. rewrite IH; [reflexivity | ].
  intros Hl. apply Hn. now right.
Qed.

Lemma length_flat_map_skip {A : Type} (f : Z -> A) (n : Z) (l : list Z) :
  NoDup l -> In n l ->
  S (List.length (flat_map (fun d => if n =? d then [] else [f d]) l))
  = List.length l.
Proof.
  intros H. induction H as [|x l Hx H IH]; intros Hin; [contradiction | ].
  cbn [flat_map List.length]. rewrite length_app.
  destruct (Z.eqb_spec n x) as [->|Hne].
  - cbn [List.length]. now rewrite length_flat_map_absent.
  - cbn [List.length]. rewrite <- IH; [reflexivity | ].
    destruct Hin as [E|Hin]; [congruence | exact Hin].
Qed.

Lemma length_flat_map_const {A B : Type} (g : A -> list B) (k : nat)
    (l : list A) :
  (forall x, In x l -> List.length (g x) = k) ->
  List.length (flat_map g l) = (List.length l * k)%nat.
Proof.
  induction l as [|x l IH]; intros H; [reflexivity | ].
  cbn [flat_map List.length]. rewrite length_app, IH, H.
  - lia.
  - now left.
  - intros y Hy. apply H. now right.
Qed.

Lemma py_remove_NoDup (l : list string) (x : string) :
  NoDup l -> In x l ->
  exists l', py_remove l x = Some l'
    /\ S (List.length l') = List.length l
    /\ forall y, In y l' <-> In y l /\ y <> x.
Proof.
  intros H. induction H as [|y l Hy H IH]; intros Hin; [contradiction | ].
  cbn [py_remove]. destruct (String.eqb_spec y x) as [->|Hne].
  - exists l. split; [reflexivity | ]. split; [reflexivity | ].
    intros z. split.
    + intros Hz. split; [now right | ]. intros ->. contradiction.
    + intros [[E|Hz] Hzx]; [congruence | exact Hz].
  - destruct Hin as [E|Hin]; [contradiction | ].
    destruct (IH Hin) as (l' & -> & Hlen & Hmem).
    exists (y :: l'). split; [reflexivity | ].
    split; [cbn [List.length]; now rewrite Hlen | ].
    intros z. cbn [In]. rewrite Hmem. split.
    + intros [<-|[Hz Hzx]]; [split; [now left | exact Hne] | ].
      split; [now right | exact Hzx].
    + intros [[E|Hz] Hzx]; [now left | right; now split].
Qed.

Section RingFacts.

Variable py_int : string -> option Z.
Hypothesis py_int_format_d : forall i, py_int (format_d i) = Some i.

Lemma name_index_node_name (i : Z) :
  name_index py_int (node_name i) = Some i.
Proof.
  unfold name_index. rewrite py_replace_node_name.
  apply py_int_format_d.
Qed.

Lemma forwarding_rules_closed_form (N : Z) :
  forwarding_rules py_int N (routers N) (router_names N)
  = Some (flat_map (fun n =>
            flat_map (fun d =>
              if n =? d then []
              else [mkRule (node_name n) (node_name d)
                           (node_name (hop_index N n d))])
              (py_range N))
            (py_range N)).
Proof.
  unfold forwarding_rules, routers, router_names.
  apply for_each_map. intros n Hn.
  cbn [router_name]. rewrite name_index_node_name. cbn [obind].
  apply for_each_map. intros d Hd.
  rewrite node_name_eqb.
  destruct (n =? d); cbn [negb]; [reflexivity | ].
  rewrite name_index_node_name. cbn [obind].
  apply in_py_range in Hn.
  rewrite next_hop_name by lia. reflexivity.
Qed.

Lemma route_walk (N d : Z) (k : nat) :
  0 <= d < N ->
  forall n, 0 <= n < N -> Z.of_nat k <= ring_dist N n d ->
  route py_int N k (node_name n) (node_name d)
  = Some (node_name (walk N k n d)).
Proof.
  intros Hd. induction k as [|k IH]; intros n Hn Hk; [reflexivity | ].
  cbn [route walk]. rewrite !name_index_node_name. cbn [obind].
  rewrite next_hop_name by lia. cbn [obind].
  assert (Hne : n <> d).
  { intros E. apply (ring_dist_zero N n d Hn Hd) in E. lia. }
  destruct (hop_index_closer N n d Hn Hd Hne) as (Hr & _ & Hc).
  apply IH; [exact Hr | lia].
Qed.

Lemma quantum_links_closed_form (N : Z) :
  quantum_links py_int N (routers N)
  = Some (flat_map (fun i =>
            [new_link (node_name i) (bsm_name i)
                      (node_name ((i + 1) mod N));
             new_link (node_name i) (bsm_name ((i - 1) mod N))
                      (node_name ((i - 1) mod N))])
            (py_range N)).
Proof.
  unfold quantum_links, routers.
  apply for_each_map. intros n Hn. apply in_py_range in Hn.
  cbn [router_name]. rewrite name_index_node_name. cbn [obind].
  rewrite !py_mod_nonzero by lia. reflexivity.
Qed.

End RingFacts.

Lemma bsm_nodes_closed_form (N : Z) :
  bsm_nodes N
  = Some (map (fun b => mkBSM (bsm_name b)
                          [node_name ((b - 1) mod N); node_name b] (N + b))
              (py_range N)).
Proof.
  unfold bsm_nodes.
  rewrite (for_each_flat_map _ _
             (fun b => [mkBSM (bsm_name b)
                          [node_name ((b - 1) mod N); node_name b] (N + b)])).
  - apply f_equal. generalize (py_range N). intros l.
    induction l as [|b l IH]; [reflexivity | ].
    cbn [flat_map map app]. now rewrite IH.
  - intros b Hb. apply in_py_range in Hb. cbv zeta.
    rewrite py_mod_nonzero by lia. reflexivity.
Qed.

Lemma map_flat_map_single {A B C : Type} (f : B -> C) (g : A -> list B)
    (h : A -> C) (l : list A) :
  (forall i, In i l -> map f (g i) = [h i]) ->
  map f (flat_map g l) = map h l.
Proof.
  induction l as [|i l IH]; intros H; [reflexivity | ].
  cbn [flat_map map]. rewrite map_app, H by now left.
  rewrite IH; [reflexivity | ]. intros j Hj. apply H. now right.
Qed.

Section RingTheorems.

Variable py_int : string -> option Z.
Hypothesis py_int_format_d : forall i, py_int (format_d i) = Some i.

(** X13. The router names are pairwise distinct, there is one router
    per id of range(ring_size), and the index that lines 63, 80 and 101
    read back from a router's name is the id it was built from, which is
    also its seed. *)
Theorem router_names_parse_back (ring_size : Z) :
  NoDup (router_names ring_size)
  /\ router_names ring_size = map router_name (routers ring_size)
  /\ List.length (routers ring_size) = Z.to_nat ring_size
  /\ forall node, In node (routers ring_size) ->
       in_ring ring_size (router_seed node)
       /\ router_name node = node_name (router_seed node)
       /\ name_index py_int (router_name node) = Some (router_seed node).
Proof.
  split; [apply NoDup_router_names | ]. split; [ | split ].
  - unfold router_names, routers. rewrite map_map. reflexivity.
  - unfold routers. now rewrite length_map, length_py_range.
  - intros node Hnode. apply in_routers in Hnode as (i & Hi & ->).
    cbn [router_seed router_name].
    split; [exact Hi | ]. split; [reflexivity | ].
    now apply name_index_node_name.
Qed.

(** X14. The forwarding loop of lines 79-97 never raises; it installs
    ring_size * (ring_size - 1) rules, and a rule is installed exactly
    when it names an ordered pair of distinct routers together with the
    next hop that lines 83-94 compute for their two indices. *)
Theorem forwarding_rules_cover_all_pairs (ring_size : Z) :
  exists table,
    forwarding_rules py_int ring_size (routers ring_size)
                     (router_names ring_size) = Some table
    /\ List.length table
       = (Z.to_nat ring_size * (Z.to_nat ring_size - 1))%nat
    /\ forall rule,
         In rule table
         <-> exists n d hop,
               in_ring ring_size n /\ in_ring ring_size d /\ n <> d
               /\ next_hop ring_size n d = Some hop
               /\ rule = mkRule (node_name n) (node_name d) hop.
Proof.
  eexists. split; [now apply forwarding_rules_closed_form | ].
  split.
  - rewrite (length_flat_map_const _ (Z.to_nat ring_size - 1)).
    + now rewrite length_py_range.
    + intros n Hn.
      pose proof (length_flat_map_skip
                    (fun d => mkRule (node_name n) (node_name d)
                                (node_name (hop_index ring_size n d)))
                    n (py_range ring_size) (NoDup_py_range _) Hn) as H.
      rewrite length_py_range in H. lia.
  - intros rule. rewrite in_flat_map. unfold in_ring. split.
    + intros (n & Hn & Hr). apply in_flat_map in Hr as (d & Hd & Hr).
      apply in_py_range in Hn, Hd.
      destruct (Z.eqb_spec n d) as [_|Hne]; [contradiction | ].
      destruct Hr as [<-|[]].
      exists n, d, (node_name (hop_index ring_size n d)).
      repeat (split; [assumption | ]).
      split; [apply next_hop_name; lia | reflexivity].
    + intros (n & d & hop & Hn & Hd & Hne & Hhop & ->).
      rewrite next_hop_name in Hhop by lia. injection Hhop as <-.
      exists n. split; [now apply in_py_range | ].
      apply in_flat_map. exists d. split; [now apply in_py_range | ].
      destruct (Z.eqb_spec n d); [contradiction | now left].
Qed.

(** X16. Starting at any router and repeatedly taking the next hop of
    lines 80-94 towards a destination reaches the destination after
    exactly the ring distance many hops, which is at most half the ring;
    no earlier router on the way is the destination. *)
Theorem route_reaches_destination (ring_size n d : Z) :
  in_ring ring_size n -> in_ring ring_size d ->
  let hops := Z.to_nat (ring_dist ring_size n d) in
  route py_int ring_size hops (node_name n) (node_name d)
  = Some (node_name d)
  /\ 2 * Z.of_nat hops <= ring_size
  /\ forall k, (k < hops)%nat ->
       exists m,
         route py_int ring_size k (node_name n) (node_name d)
         = Some (node_name m)
         /\ in_ring ring_size m /\ m <> d.
Proof.
  unfold in_ring. intros Hn Hd. cbv zeta.
  assert (H0 : 0 <= ring_dist ring_size n d) by (unfold ring_dist; lia).
  split; [ | split ].
  - rewrite (route_walk py_int py_int_format_d ring_size d _ Hd n Hn)
      by lia.
    destruct (walk_dist ring_size d (Z.to_nat (ring_dist ring_size n d))
                Hd n Hn ltac:(lia)) as [Hw Hdist].
    do 2 f_equal. apply (ring_dist_zero ring_size _ d Hw Hd). lia.
  - unfold ring_dist. lia.
  - intros k Hk. exists (walk ring_size k n d).
    rewrite (route_walk py_int py_int_format_d ring_size d _ Hd n Hn)
      by lia.
    destruct (walk_dist ring_size d k Hd n Hn ltac:(lia)) as [Hw Hdist].
    split; [reflexivity | ]. split; [exact Hw | ].
    intros E. apply (ring_dist_zero ring_size _ d Hw Hd) in E. lia.
Qed.

(** X17. In a ring of at least three routers, BSM node b is constructed
    (lines 40-47) with the routers b-1 and b as its other nodes, while
    the quantum channels of lines 62-77 that end at BSM node b start at
    the routers b and b+1 (indices modulo ring_size); router b+1 is
    neither router b-1 nor router b. *)
Theorem bsm_nodes_declared_and_linked (ring_size : Z) :
  3 <= ring_size ->
  exists bsms links,
    bsm_nodes ring_size = Some bsms
    /\ quantum_links py_int ring_size (routers ring_size) = Some links
    /\ List.length links = (2 * List.length bsms)%nat
    /\ forall b, in_ring ring_size b ->
         let pre := (b - 1) mod ring_size in
         let succ := (b + 1) mod ring_size in
         (forall bsm, In bsm bsms ->
            bsm_node_name bsm = bsm_name b ->
            other_nodes bsm = [node_name pre; node_name b])
         /\ (exists bsm, In bsm bsms /\ bsm_node_name bsm = bsm_name b)
         /\ (forall src,
               (exists link, In link links /\ link_src link = src
                             /\ link_bsm link = bsm_name b)
               <-> src = node_name b \/ src = node_name succ)
         /\ succ <> pre /\ succ <> b.
Proof.
  intros HN. do 2 eexists.
  split; [apply bsm_nodes_closed_form | ].
  split; [now apply quantum_links_closed_form | ].
  split.
  { rewrite (length_flat_map_const _ 2%nat) by (intros; reflexivity).
    rewrite length_map. lia. }
  unfold in_ring. intros b Hb. cbv zeta.
  split; [ | split; [ | split ] ].
  - intros bsm Hin Hname. apply in_map_iff in Hin as (b' & <- & Hb').
    cbn [bsm_node_name other_nodes] in *.
    apply bsm_name_inj in Hname. now subst b'.
  - exists (mkBSM (bsm_name b)
              [node_name ((b - 1) mod ring_size); node_name b]
              (ring_size + b)).
    split; [ | reflexivity ].
    apply in_map_iff. exists b. split; [reflexivity | ].
    now apply in_py_range.
  - intros src. split.
    + intros (link & Hin & <- & Hbsm).
      apply in_flat_map in Hin as (i & Hi & Hl).
      apply in_py_range in Hi.
      destruct Hl as [<-|[<-|[]]];
        cbn [new_link link_src link_bsm] in *;
        apply bsm_name_inj in Hbsm.
      * left. now subst i.
      * right. f_equal. rewrite <- Hbsm.
        rewrite pred_mod by exact Hi.
        destruct (Z.eqb_spec i 0) as [->|Hi0].
        -- replace (ring_size - 1 + 1) with ring_size by lia.
           symmetry. apply Z.mod_same. lia.
        -- replace (i - 1 + 1) with i by lia.
           symmetry. apply Z.mod_small. lia.
    + intros [->| ->].
      * exists (new_link (node_name b) (bsm_name b)
                  (node_name ((b + 1) mod ring_size))).
        split; [ | split; reflexivity ].
        apply in_flat_map. exists b.
        split; [now apply in_py_range | now left].
      * exists (new_link (node_name ((b + 1) mod ring_size))
                  (bsm_name b) (node_name b)).
        split; [ | split; reflexivity ].
        apply in_flat_map. exists ((b + 1) mod ring_size).
        split; [apply in_py_range, Z.mod_pos_bound; lia | ].
        right. left.
        assert (E : ((b + 1) mod ring_size - 1) mod ring_size = b).
        { rewrite succ_mod by exact Hb.
          destruct (Z.eqb_spec (b + 1) ring_size) as [E|E].
          - symmetry. apply (Z.mod_unique_pos _ _ (-1)); lia.
          - replace (b + 1 - 1) with b by lia. apply Z.mod_small. lia. }
        now rewrite E.
  - rewrite succ_mod, pred_mod by exact Hb.
    destruct (Z.eqb_spec (b + 1) ring_size), (Z.eqb_spec b 0); lia.
Qed.

(** X19. Lines 100-108 never raise: there is one application per
    router, in router order; its seed is the router's index, and its
    list of other nodes holds the ring_size - 1 router names different
    from its own. *)
Theorem apps_seed_and_others (ring_size : Z) :
  exists l,
    apps py_int (routers ring_size) (router_names ring_size) = Some l
    /\ map app_node l = router_names ring_size
    /\ forall a, In a l ->
         in_ring ring_size (app_seed a)
         /\ app_node a = node_name (app_seed a)
         /\ S (List.length (app_others a)) = Z.to_nat ring_size
         /\ forall name,
              In name (app_others a)
              <-> In name (router_names ring_size) /\ name <> app_node a.
Proof.
  set (names := router_names ring_size).
  set (g := fun i : Z =>
              match py_remove names (node_name i) with
              | Some others => [mkApp (node_name i) others i]
              | None => []
              end).
  assert (Hin : forall i, In i (py_range ring_size) ->
                          In (node_name i) names).
  { intros i Hi. apply in_router_names. exists i.
    now rewrite <- in_py_range. }
  assert (Hrun : apps py_int (routers ring_size) names
                 = Some (flat_map g (py_range ring_size))).
  { unfold apps, routers. apply for_each_map. intros i Hi.
    cbn [router_name]. rewrite name_index_node_name by assumption.
    cbn [obind]. unfold g.
    destruct (py_remove_NoDup names (node_name i)
                (NoDup_router_names _) (Hin i Hi)) as (l' & -> & _).
    reflexivity. }
  exists (flat_map g (py_range ring_size)).
  split; [exact Hrun | ]. split.
  - unfold names, router_names.
    assert (Hall : forall i, In i (py_range ring_size) ->
                             map app_node (g i) = [node_name i]).
    { intros i Hi. unfold g.
      destruct (py_remove_NoDup names (node_name i)
                  (NoDup_router_names _) (Hin i Hi)) as (l' & -> & _).
      reflexivity. }
    now apply map_flat_map_single.
  - intros a Ha. apply in_flat_map in Ha as (i & Hi & Ha).
    unfold g in Ha.
    destruct (py_remove_NoDup names (node_name i)
                (NoDup_router_names _) (Hin i Hi))
      as (l' & E & Hlen & Hmem).
    rewrite E in Ha. destruct Ha as [<-|[]].
    cbn [app_seed app_node app_others].
    split; [now apply in_py_range | ]. split; [reflexivity | ].
    split; [ | exact Hmem ].
    rewrite Hlen. unfold names, router_names.
    now rewrite length_map, length_py_range.
Qed.

End RingTheorems.

(** X18. The names of the routers and BSM nodes are pairwise distinct, and
    lines 49-60 create a classical channel for exactly the ordered pairs
    of distinct nodes among them: none from a node to itself. *)
Theorem classical_channels_join_all_pairs (ring_size : Z) :
  exists bsms,
    bsm_nodes ring_size = Some bsms
    /\ let names := (map router_name (routers ring_size)
                     ++ map bsm_node_name bsms)%list in
       NoDup names
       /\ forall cc,
            In cc (classical_channels ring_size names)
            <-> exists src dst,
                  In src names /\ In dst names /\ src <> dst
                  /\ cc = new_cc src dst.
Proof.
  eexists. split; [apply bsm_nodes_closed_form | ]. cbv zeta.
  unfold routers. rewrite !map_map. cbn [router_name bsm_node_name].
  fold (router_names ring_size).
  set (bsm_names := map (fun b => bsm_name b) (py_range ring_size)).
  assert (Hbsm : forall s, In s bsm_names
                           <-> exists i, 0 <= i < ring_size /\ s = bsm_name i).
  { intros s. unfold bsm_names. rewrite in_map_iff. split.
    - intros (i & <- & Hi). exists i. now rewrite <- in_py_range.
    - intros (i & Hi & ->). exists i. now rewrite in_py_range. }
  split.
  - apply NoDup_app.
    + apply NoDup_router_names.
    + apply NoDup_map_inj; [ | apply NoDup_py_range ].
      intros a b _ _. apply bsm_name_inj.
    + intros s Hs Hs'. apply in_router_names in Hs as (i & _ & ->).
      apply Hbsm in Hs' as (j & _ & E). now apply node_name_not_bsm in E.
  - intros cc. unfold classical_channels. rewrite in_flat_map. split.
    + intros (src & Hsrc & Hcc).
      apply in_flat_map in Hcc as (i & Hi & Hcc).
      apply in_py_range in Hi. apply in_app_or in Hcc.
      destruct Hcc as [Hcc|Hcc]; cbv zeta in Hcc.
      * destruct (String.eqb_spec (node_name i) src) as [_|Hne];
          [contradiction | ].
        destruct Hcc as [<-|[]]. exists src, (node_name i).
        split; [exact Hsrc | ]. split; [ | split; [congruence | reflexivity] ].
        apply in_or_app. left. apply in_router_names. now exists i.
      * destruct (String.eqb_spec (bsm_name i) src) as [_|Hne];
          [contradiction | ].
        destruct Hcc as [<-|[]]. exists src, (bsm_name i).
        split; [exact Hsrc | ]. split; [ | split; [congruence | reflexivity] ].
        apply in_or_app. right. apply Hbsm. now exists i.
    + intros (src & dst & Hsrc & Hdst & Hne & ->).
      exists src. split; [exact Hsrc | ].
      apply in_flat_map. apply in_app_or in Hdst.
      destruct Hdst as [Hdst|Hdst].
      * apply in_router_names in Hdst as (i & Hi & ->).
        exists i. split; [now apply in_py_range | ].
        apply in_or_app. left. cbv zeta.
        destruct (String.eqb_spec (node_name i) src) as [E|_];
          [congruence | now left].
      * apply Hbsm in Hdst as (i & Hi & ->).
        exists i. split; [now apply in_py_range | ].
        apply in_or_app. right. cbv zeta.
        destruct (String.eqb_spec (bsm_name i) src) as [E|_];
          [congruence | now left].
Qed.

(** *** The columns of traffic.csv *)

Section TrafficFacts.

Variable V : Type.

Lemma length_zip4 {A B C D : Type} (a : list A) (b : list B) (c : list C)
    (d : list D) :
  List.length (zip4 a b c d)
  = Nat.min (Nat.min (List.length a) (List.length b))
            (Nat.min (List.length c) (List.length d)).
Proof.
  revert b c d. induction a as [|x a IH]; intros [|y b] [|z c] [|w d];
    cbn [zip4 List.length]; try lia.
  rewrite IH. lia.
Qed.

Lemma zip4_first {A B C D : Type} (a : list A) (b : list B) (c : list C)
    (d : list D) :
  map (fun row : A * B * C * D => fst (fst (fst row))) (zip4 a b c d)
  = firstn (List.length (zip4 a b c d)) a.
Proof.
  revert b c d. induction a as [|x a IH]; intros [|y b] [|z c] [|w d];
    cbn [zip4 List.length map firstn fst]; try reflexivity.
  now rewrite IH.
Qed.

Lemma length_node_rows (node : AppReport V) :
  List.length (node_rows V node) = row_count node.
Proof.
  unfold node_rows, row_count. cbv zeta.
  rewrite length_zip4, !length_firstn. lia.
Qed.

Lemma node_rows_reservations (node : AppReport V) :
  map (fun row : list V * V * V * V => fst (fst (fst row)))
      (node_rows V node)
  = firstn (row_count node) (report_reserves V node).
Proof.
  rewrite <- length_node_rows. unfold node_rows. cbv zeta.
  rewrite zip4_first, firstn_firstn. f_equal.
  rewrite length_zip4, !length_firstn. lia.
Qed.

Lemma unpack5_length (reservation : list V) :
  match unpack5 V reservation with
  | Some _ => (List.length reservation =? 5)%nat = true
  | None => (List.length reservation =? 5)%nat = false
  end.
Proof.
  destruct reservation as [|a [|b [|c [|d [|e [|f l]]]]]]; reflexivity.
Qed.

Lemma rows_loop_columns (initiator : string)
    (rows : list (list V * V * V * V)) :
  forall (t : TrafficInfo V) (n : nat),
    columns_have_length n t ->
    match rows_loop V initiator t rows with
    | Some t' =>
        forallb (fun reservation => (List.length reservation =? 5)%nat)
                (map (fun row => fst (fst (fst row))) rows) = true
        /\ columns_have_length (n + List.length rows) t'
        /\ initiators t'
           = (initiators t ++ repeat initiator (List.length rows))%list
    | None =>
        forallb (fun reservation => (List.length reservation =? 5)%nat)
                (map (fun row => fst (fst (fst row))) rows) = false
    end.
Proof.
  induction rows as [|[[[reservation path] wait_time] throughput] rest IH];
    intros t n Ht.
  - cbn. split; [reflexivity | ]. split.
    + now rewrite Nat.add_0_r.
    + now rewrite app_nil_r.
  - cbn [rows_loop append_row map forallb fst List.length].
    pose proof (unpack5_length reservation) as Hu.
    destruct (unpack5 V reservation) as [[[[[responder s_t] e_t] size] fid]|];
      cbn [obind]; [ | now rewrite Hu ].
    rewrite Hu. cbn [andb].
    match goal with
    | |- context [rows_loop V initiator ?t1 rest] =>
        specialize (IH t1 (S n))
    end.
    destruct Ht as (H1 & H2 & H3 & H4 & H5 & H6 & H7 & H8 & H9).
    assert (Hcols : columns_have_length (S n)
              (mkTraffic (initiators t ++ [initiator])
                 (responders V t ++ [responder])
                 (start_times V t ++ [s_t]) (end_times V t ++ [e_t])
                 (memory_sizes V t ++ [size]) (fidelities V t ++ [fid])
                 (paths V t ++ [path]) (wait_times V t ++ [wait_time])
                 (throughputs V t ++ [throughput]))).
    { unfold columns_have_length. cbn.
      rewrite !length_app. cbn [List.length].
      repeat split; lia. }
    specialize (IH Hcols).
    destruct (rows_loop V initiator _ rest) as [t'|]; [ | exact IH ].
    destruct IH as (Hall & Hlen & Hinit).
    split; [exact Hall | ]. split.
    + now rewrite <- Nat.add_succ_comm.
    + rewrite Hinit. cbn [initiators repeat].
      now rewrite <- app_assoc.
Qed.

Lemma traffic_loop_columns (routers : list (AppReport V)) :
  forall (t : TrafficInfo V) (n : nat),
    columns_have_length n t ->
    match traffic_loop V t routers with
    | Some t' =>
        forallb five_fields routers = true
        /\ columns_have_length
             (n + list_sum (map row_count routers)) t'
        /\ initiators t'
           = (initiators t
              ++ flat_map (fun node =>
                   repeat (report_name V node) (row_count node))
                   routers)%list
    | None => forallb five_fields routers = false
    end.
Proof.
  induction routers as [|node rest IH]; intros t n Ht.
  - cbn. split; [reflexivity | ]. split.
    + now rewrite Nat.add_0_r.
    + now rewrite app_nil_r.
  - cbn [traffic_loop forallb map list_sum flat_map].
    pose proof (rows_loop_columns (report_name V node)
                  (node_rows V node) t n Ht) as Hrows.
    rewrite node_rows_reservations, length_node_rows in Hrows.
    fold (five_fields node) in Hrows.
    destruct (rows_loop V _ t (node_rows V node)) as [t1|];
      cbn [obind]; [ | now rewrite Hrows ].
    destruct Hrows as (Hall & Hlen & Hinit). rewrite Hall. cbn [andb].
    specialize (IH t1 _ Hlen).
    destruct (traffic_loop V t1 rest) as [t'|]; [ | exact IH ].
    destruct IH as (Hall' & Hlen' & Hinit').
    split; [exact Hall' | ]. split.
    + now rewrite <- Nat.add_assoc in Hlen'.
    + now rewrite Hinit', Hinit, <- app_assoc.
Qed.

(** X20. If lines 145-167 finish, the nine columns of the traffic table
    have one common length, the sum over the routers of the least of the
    lengths of reserves, paths, wait times and throughputs, and the
    initiator column repeats each router's name that many times; they
    raise exactly when one of the reservations used has not five
    fields. *)
Theorem traffic_columns_have_one_length (routers : list (AppReport V)) :
  match traffic_info routers with
  | Some t =>
      forallb five_fields routers = true
      /\ columns_have_length (list_sum (map row_count routers)) t
      /\ initiators t
         = flat_map (fun node =>
             repeat (report_name V node) (row_count node)) routers
  | None => forallb five_fields routers = false
  end.
Proof.
  unfold traffic_info.
  apply (traffic_loop_columns routers (mkTraffic [] [] [] [] [] [] [] [] [])
           0%nat).
  unfold columns_have_length. cbn. repeat split.
Qed.

End TrafficFacts.

(** ** The theorems above at concrete inputs *)

Lemma bell_dm_on_psi_indices_is_block_witness :
  let state := [K_of_Q (3 # 4); K_of_Q (1 # 4)] in
  let elem_order := [2; 3] in
  let pairs := zip state elem_order in
  pairs <> []
  /\ forallb (fun p => is_psi_index (snd p)) pairs = true
  /\ exists a b, bell_dm state elem_order = Ok (PyQobj (psi_block a b)).
Proof.
  cbv zeta.
  assert (Hne : zip [K_of_Q (3 # 4); K_of_Q (1 # 4)] [2; 3] <> [])
    by discriminate.
  assert (Hall : forallb (fun p => is_psi_index (snd p))
                   (zip [K_of_Q (3 # 4); K_of_Q (1 # 4)] [2; 3]) = true)
    by reflexivity.
  exact (conj Hne (conj Hall
           (bell_dm_on_psi_indices_is_block
              [K_of_Q (3 # 4); K_of_Q (1 # 4)] [2; 3] Hne Hall))).
Defined.



Lemma round1_correct_outcomes_witness :
  square 16 (zeros 4) = true
  /\ exists final_state,
      round1_correct 1 1 (zeros 4) = Ok final_state
      /\ square 4 final_state = true.
Proof.
  assert (H : square 16 (zeros 4) = true) by (vm_compute; reflexivity).
  exact (conj H (round1_correct_outcomes 1 1 (zeros 4) H)).
Defined.

Lemma merge_correct_on_four_qubits_witness :
  shape (zeros 4) = (16, 16)%nat
  /\ merge_correct 1 (zeros 4)
     = (if 1 =? 0 then Ok (zeros 4)
        else if 1 =? 1 then Err (ValueError DimensionMismatch)
        else Err (UnboundLocalError "ghz_state")).
Proof.
  assert (H : shape (zeros 4) = (16, 16)%nat) by (vm_compute; reflexivity).
  exact (conj H (merge_correct_on_four_qubits 1 (zeros 4) H)).
Defined.

Lemma next_hop_is_one_step_closer_witness :
  in_ring 5 0 /\ in_ring 5 3 /\ 0 <> 3
  /\ exists hop,
      next_hop 5 0 3 = Some (node_name hop)
      /\ in_ring 5 hop
      /\ ring_dist 5 hop 0 = 1
      /\ ring_dist 5 hop 3 = ring_dist 5 0 3 - 1.
Proof.
  assert (H0 : in_ring 5 0) by (unfold in_ring; lia).
  assert (H3 : in_ring 5 3) by (unfold in_ring; lia).
  assert (Hne : 0 <> 3) by lia.
  exact (conj H0 (conj H3 (conj Hne
           (next_hop_is_one_step_closer 5 0 3 H0 H3 Hne)))).
Defined.

Lemma router_names_parse_back_witness :
  (forall i, decimal_int (format_d i) = Some i)
  /\ NoDup (router_names 4)
  /\ router_names 4 = map router_name (routers 4)
  /\ List.length (routers 4) = Z.to_nat 4
  /\ forall node, In node (routers 4) ->
       in_ring 4 (router_seed node)
       /\ router_name node = node_name (router_seed node)
       /\ name_index decimal_int (router_name node)
          = Some (router_seed node).
Proof.
  exact (conj decimal_int_format_d
           (router_names_parse_back decimal_int decimal_int_format_d 4)).
Defined.

Lemma forwarding_rules_cover_all_pairs_witness :
  (forall i, decimal_int (format_d i) = Some i)
  /\ exists table,
      forwarding_rules decimal_int 4 (routers 4) (router_names 4)
      = Some table
      /\ List.length table = (Z.to_nat 4 * (Z.to_nat 4 - 1))%nat
      /\ forall rule,
           In rule table
           <-> exists n d hop,
                 in_ring 4 n /\ in_ring 4 d /\ n <> d
                 /\ next_hop 4 n d = Some hop
                 /\ rule = mkRule (node_name n) (node_name d) hop.
Proof.
  exact (conj decimal_int_format_d
           (forwarding_rules_cover_all_pairs decimal_int
              decimal_int_format_d 4)).
Defined.

Lemma route_reaches_destination_witness :
  (forall i, decimal_int (format_d i) = Some i)
  /\ in_ring 6 1 /\ in_ring 6 4
  /\ let hops := Z.to_nat (ring_dist 6 1 4) in
     route decimal_int 6 hops (node_name 1) (node_name 4)
     = Some (node_name 4)
     /\ 2 * Z.of_nat hops <= 6
     /\ forall k, (k < hops)%nat ->
          exists m,
            route decimal_int 6 k (node_name 1) (node_name 4)
            = Some (node_name m)
            /\ in_ring 6 m /\ m <> 4.
Proof.
  assert (H1 : in_ring 6 1) by (unfold in_ring; lia).
  assert (H4 : in_ring 6 4) by (unfold in_ring; lia).
  exact (conj decimal_int_format_d (conj H1 (conj H4
           (route_reaches_destination decimal_int decimal_int_format_d
              6 1 4 H1 H4)))).
Defined.

Lemma bsm_nodes_declared_and_linked_witness :
  (forall i, decimal_int (format_d i) = Some i)
  /\ 3 <= 3
  /\ exists bsms links,
      bsm_nodes 3 = Some bsms
      /\ quantum_links decimal_int 3 (routers 3) = Some links
      /\ List.length links = (2 * List.length bsms)%nat
      /\ forall b, in_ring 3 b ->
           let pre := (b - 1) mod 3 in
           let succ := (b + 1) mod 3 in
           (forall bsm, In bsm bsms ->
              bsm_node_name bsm = bsm_name b ->
              other_nodes bsm = [node_name pre; node_name b])
           /\ (exists bsm, In bsm bsms /\ bsm_node_name bsm = bsm_name b)
           /\ (forall src,
                 (exists link, In link links /\ link_src link = src
                               /\ link_bsm link = bsm_name b)
                 <-> src = node_name b \/ src = node_name succ)
           /\ succ <> pre /\ succ <> b.
Proof.
  assert (H3 : 3 <= 3) by lia.
  exact (conj decimal_int_format_d (conj H3
           (bsm_nodes_declared_and_linked decimal_int decimal_int_format_d
              3 H3))).
Defined.

Lemma apps_seed_and_others_witness :
  (forall i, decimal_int (format_d i) = Some i)
  /\ exists l,
      apps decimal_int (routers 4) (router_names 4) = Some l
      /\ map app_node l = router_names 4
      /\ forall a, In a l ->
           in_ring 4 (app_seed a)
           /\ app_node a = node_name (app_seed a)
           /\ S (List.length (app_others a)) = Z.to_nat 4
           /\ forall name,
                In name (app_others a)
                <-> In name (router_names 4) /\ name <> app_node a.
Proof.
  exact (conj decimal_int_format_d
           (apps_seed_and_others decimal_int decimal_int_format_d 4)).
Defined.
